(** * jmdict-vi: enrichment of JMdict entries with Vietnamese glosses

    A shallow embedding of [2_add_vi.py] (matching, gloss synthesis, entry
    merging, parallel orchestration) and of [3_merge_xml_file.py] (merging of
    chunk files), followed by the properties of these programs.

    Conventions of the embedding.
    - A Python [str] is the list of its Unicode code points ([pystr]).
    - [None]-able values are [option]s; Python truthiness is [truthy].
    - A function that may raise or print lives in the monad [Py]: an
      outcome ([Return] or [Raise]) together with the lines it printed.
    - The SQLite database is a pair of tables (lists of rows, in the order
      the store returns them); a table that cannot be queried makes
      [sqlite3] raise [sqlite3.Error], and so does a [LIKE] pattern longer
      than SQLite allows. Texts are sequences of code points that UTF-8
      encodes.
    - An [xml.etree.ElementTree.Element] is a record with its tag,
      attributes, text, tail and children; the children of one element are
      identified by their position. *)

From stdpp Require Import base option list gmap strings pretty.

Open Scope Z_scope.

(** ** Python strings *)

Abbreviation pystr := (list Z) (only parsing).

(** An ASCII literal as a Python string. *)
Fixpoint py (s : string) : pystr :=
  match s with
  | EmptyString => []
  | String a s' => Z.of_nat (Ascii.nat_of_ascii a) :: py s'
  end.
Arguments py : simpl never.

(** [bool(x)] for a value that is [None] or a string. *)
Definition truthy (o : option pystr) : bool :=
  match o with
  | Some (_ :: _) => true
  | _ => false
  end.

(** [f"{x}"] for a value that is [None] or a string. *)
Definition py_format (o : option pystr) : pystr :=
  match o with
  | Some s => s
  | None => py "None"
  end.

(** [c.isspace()]: the code points Python treats as whitespace. *)
Definition py_isspace (c : Z) : bool :=
  ((9 <=? c) && (c <=? 13)) || ((28 <=? c) && (c <=? 32))
  || (c =? 133) || (c =? 160) || (c =? 5760)
  || ((8192 <=? c) && (c <=? 8202))
  || (c =? 8232) || (c =? 8233) || (c =? 8239) || (c =? 8287) || (c =? 12288).

Fixpoint lstrip (s : pystr) : pystr :=
  match s with
  | [] => []
  | c :: s' => if py_isspace c then lstrip s' else s
  end.

Definition rstrip (s : pystr) : pystr := reverse (lstrip (reverse s)).

(** [s.strip()] *)
Definition strip (s : pystr) : pystr := rstrip (lstrip s).

(** [s.split(sep)] for a separator of one character. *)
Fixpoint split (sep : Z) (s : pystr) : list pystr :=
  match s with
  | [] => [[]]
  | c :: s' =>
      if c =? sep then [] :: split sep s'
      else match split sep s' with
           | piece :: pieces => (c :: piece) :: pieces
           | [] => [[c]]
           end
  end.

(** [sep.join(pieces)] *)
Fixpoint join (sep : pystr) (pieces : list pystr) : pystr :=
  match pieces with
  | [] => []
  | [piece] => piece
  | piece :: pieces' => piece ++ sep ++ join sep pieces'
  end.

(** [x in l] for a list of strings and [x] a string or [None]. *)
Definition py_in (x : option pystr) (l : list pystr) : bool :=
  match x with
  | Some s => bool_decide (s ∈ l)
  | None => false
  end.

Definition SEMICOLON : Z := 59.
Definition SPACE : Z := 32.

(** ** Exceptions, printed lines and the monad of effects *)

Inductive exn : Type :=
| TypeError
| ParseError
| IndexError
| ValueError     (* a declared multi-byte encoding, which the parser refuses *)
| LookupError    (* a declared encoding that Python does not know *)
| OSError.       (* a file that cannot be opened or read *)

#[global] Instance exn_eq_dec : EqDecision exn.
Proof. solve_decision. Defined.

Inductive outcome (A : Type) : Type :=
| Return (a : A)
| Raise (e : exn).
Arguments Return {A} a.
Arguments Raise {A} e.

(** The lines of the program that report a failure; progress lines are
    left out. *)
Inductive event : Type :=
| DatabaseError                      (* print(f"Database error: {e}") *)
| ErrorParsingEntry (i : nat)        (* print(f"Error parsing entry {i}: {e}") *)
| ErrorParsingFile (xml_file : pystr). (* print(f"Error parsing {xml_file}: {e}") *)

Definition Py (A : Type) : Type := outcome A * list event.

Definition value {A} (m : Py A) : outcome A := m.1.
Definition printed {A} (m : Py A) : list event := m.2.

Definition raise {A} (e : exn) : Py A := (Raise e, []).
Definition print (ev : event) : Py unit := (Return (), [ev]).

#[global] Instance Py_ret : MRet Py := fun A a => (Return a, []).
#[global] Instance Py_bind : MBind Py := fun A B f m =>
  match m with
  | (Return a, out) => let r := f a in (r.1, out ++ r.2)
  | (Raise e, out) => (Raise e, out)
  end.

(** ** The translation store *)

Record WordRow : Type := mkWordRow {
  r_word : option pystr;
  r_phonetic : option pystr;
  r_mean : option pystr;
  r_is_common : option Z;
  r_priority : option pystr;
  r_info : option pystr;
  r_anki : option pystr
}.

Record KanjiRow : Type := mkKanjiRow {
  r_kanji : option pystr;
  r_hanzi : option pystr;
  r_onyomi : option pystr;
  r_kunyomi : option pystr;
  r_kmean : option pystr;
  r_level : option pystr;
  r_kpriority : option pystr;
  r_kinfo : option pystr;
  r_kanki : option pystr
}.

(** A connection gives access to the tables [words] and [kanji]; [None]
    is a table whose queries raise [sqlite3.Error]. The columns hold text
    or NULL ([is_common] a number or NULL), text is compared code point by
    code point, and a query returns its rows in the order of the table. *)
Record Connection : Type := mkConnection {
  words : option (list WordRow);
  kanji : option (list KanjiRow)
}.

(** [column = ?]: a comparison with NULL on either side selects nothing. *)
Definition sql_eq (column param : option pystr) : bool :=
  match column, param with
  | Some a, Some b => bool_decide (a = b)
  | _, _ => false
  end.

Definition sql_upper (c : Z) : Z :=
  if (97 <=? c) && (c <=? 122) then c - 32 else c.

(** SQLite's pattern comparison on two terminated texts: [%] matches any
    run of characters, [_] any one character, ASCII letters match without
    regard to case. *)
Fixpoint like (pattern s : pystr) : bool :=
  match pattern with
  | [] => match s with [] => true | _ => false end
  | p :: pattern' =>
      if p =? 37 then
        (fix from (t : pystr) : bool :=
           like pattern' t || match t with [] => false | _ :: t' => from t' end) s
      else
        match s with
        | [] => false
        | c :: s' =>
            ((p =? 95) || (sql_upper p =? sql_upper c)) && like pattern' s'
        end
  end.

(** A text as SQLite's [LIKE] reads it: up to its first U+0000, where the
    C string ends. *)
Fixpoint c_string (s : pystr) : pystr :=
  match s with
  | [] => []
  | c :: s' => if c =? 0 then [] else c :: c_string s'
  end.

(** [column LIKE ?]: the pattern and the stored text are both read as
    terminated texts; NULL matches nothing. *)
Definition sql_like (column : option pystr) (pattern : pystr) : bool :=
  match column with
  | Some s => like (c_string pattern) (c_string s)
  | None => false
  end.

(** The number of bytes of a text in UTF-8, the encoding in which it is
    bound to a query. *)
Definition utf8_bytes (c : Z) : Z :=
  if c <? 128 then 1 else if c <? 2048 then 2 else if c <? 65536 then 3 else 4.

Definition utf8_length (s : pystr) : Z :=
  fold_right (fun c n => utf8_bytes c + n) 0 s.

(** SQLite refuses a [LIKE] pattern of more bytes than this, with the
    error "LIKE or GLOB pattern too complex". *)
Definition SQLITE_MAX_LIKE_PATTERN_LENGTH : Z := 50000.

(** ** The classes [Word], [Kanji] and [StarDict] *)

Module Word.
Record t : Type := mk {
  word : pystr;
  phonetic : option pystr;
  mean : pystr;
  is_common : bool;
  priority : option pystr;
  info : option pystr;
  anki : option pystr
}.

(** ['À' <= c <= 'ỹ'] *)
Definition vietnamese (c : Z) : bool := (192 <=? c) && (c <=? 7929).

Definition _process_mean (mean : pystr) : pystr :=
  let meanings := map strip (split SEMICOLON mean) in
  let vietnamese_meanings := List.filter (existsb vietnamese) meanings in
  match vietnamese_meanings with
  | [] => mean
  | _ => join (py "; ") vietnamese_meanings
  end.

Definition init (word phonetic mean : option pystr) (is_common : bool)
    (priority info anki : option pystr) : t :=
  {| word := match word with Some ((_ :: _) as w) => strip w | _ => [] end;
     phonetic := phonetic;
     mean := match mean with Some ((_ :: _) as m) => _process_mean m | _ => [] end;
     is_common := is_common;
     priority := priority;
     info := info;
     anki := anki |}.
End Word.

Module Kanji.
Record t : Type := mk {
  kanji : option pystr;
  hanzi : option pystr;
  on : option pystr;
  kun : option pystr;
  mean : option pystr;
  level : option pystr;
  priority : option pystr;
  info : option pystr;
  anki : option pystr
}.
End Kanji.

(** ** ElementTree elements *)

#[warnings="-register-all"]
Inductive Element : Type := mkElement {
  tag : pystr;
  attrib : list (pystr * pystr);
  text : option pystr;
  tail : option pystr;
  children : list Element
}.

Module ET.
(** [ET.Element(tag)] *)
Definition Element_ (tag : pystr) : Element := mkElement tag [] None None [].

Definition with_children (e : Element) (cs : list Element) : Element :=
  mkElement (tag e) (attrib e) (text e) (tail e) cs.

(** [elem.set(key, value)] on an element that has no such key yet. *)
Definition set (e : Element) (key val : pystr) : Element :=
  mkElement (tag e) (attrib e ++ [(key, val)]) (text e) (tail e) (children e).

(** [elem.text = s] *)
Definition set_text (e : Element) (s : pystr) : Element :=
  mkElement (tag e) (attrib e) (Some s) (tail e) (children e).

(** [parent.append(child)] *)
Definition append (parent child : Element) : Element :=
  with_children parent (children parent ++ [child]).

(** [parent.insert(index, child)] for [index >= 0]: past the end it
    appends. *)
Definition insert (parent : Element) (index : nat) (child : Element) : Element :=
  with_children parent (take index (children parent) ++ child :: drop index (children parent)).

Definition has_tag (name : pystr) (e : Element) : bool := bool_decide (tag e = name).

(** [elem.findall('name')] and [elem.findall('./name')]: the children
    with that tag, in order. *)
Definition findall (e : Element) (name : pystr) : list Element :=
  List.filter (has_tag name) (children e).

(** The same, each child with its position among [list(elem)]. *)
Definition findall_at (e : Element) (name : pystr) : list (nat * Element) :=
  List.filter (fun ic => has_tag name ic.2) (imap (fun i c => (i, c)) (children e)).

(** [elem.findall('./a/b')] *)
Definition findall2 (e : Element) (a b : pystr) : list Element :=
  flat_map (fun c => findall c b) (findall e a).

(** The proper descendants of an element in document order. *)
Fixpoint descendants (e : Element) : list Element :=
  (fix of_list (cs : list Element) : list Element :=
     match cs with
     | [] => []
     | c :: cs' => c :: descendants c ++ of_list cs'
     end) (children e).

(** [elem.findall('.//name')] *)
Definition findall_desc (e : Element) (name : pystr) : list Element :=
  List.filter (has_tag name) (descendants e).

(** [parent[i] = child] for [i >= 0]. *)
Definition setitem (parent : Element) (i : nat) (child : Element) : Py Element :=
  if bool_decide (i < length (children parent))%nat
  then mret (with_children parent (<[i := child]> (children parent)))
  else raise IndexError.
End ET.

Module StarDict.
Record t : Type := mk {
  hanzi : pystr;
  hanzi_anki : list pystr;
  mean : pystr;
  mean_anki : option pystr
}.

(** One [misc] child; [ET.SubElement(sense, 'misc')] followed by the
    assignment of its text. *)
Definition misc (s : pystr) : Element := ET.set_text (ET.Element_ (py "misc")) s.

Definition to_xml_sense_elements (self : t) : list Element :=
  let sense_elements := [] in
  let sense_elements :=
    if truthy (Some (mean self)) then
      let mean_sense := ET.Element_ (py "sense") in
      let gloss := ET.Element_ (py "gloss") in
      let gloss := ET.set gloss (py "xml:lang") (py "vi") in
      let gloss := ET.set_text gloss (mean self) in
      let mean_sense := ET.append mean_sense gloss in
      let mean_sense :=
        if truthy (mean_anki self)
        then ET.append mean_sense (misc (py_format (mean_anki self)))
        else mean_sense in
      sense_elements ++ [mean_sense]
    else sense_elements in
  let sense_elements :=
    if truthy (Some (hanzi self)) then
      let hanzi_sense := ET.Element_ (py "sense") in
      let gloss := ET.Element_ (py "gloss") in
      let gloss := ET.set_text gloss (hanzi self) in
      let hanzi_sense := ET.append hanzi_sense gloss in
      let hanzi_sense :=
        fold_left (fun sense anki_entry => ET.append sense (misc anki_entry))
                  (hanzi_anki self) hanzi_sense in
      sense_elements ++ [hanzi_sense]
    else sense_elements in
  sense_elements.
End StarDict.

(** ** Queries *)

Definition word_of_row (r : WordRow) : Word.t :=
  Word.init (r_word r) (r_phonetic r) (r_mean r)
            (match r_is_common r with Some z => negb (z =? 0) | None => false end)
            (r_priority r) (r_info r) (r_anki r).

Definition kanji_of_row (r : KanjiRow) : Kanji.t :=
  Kanji.mk (r_kanji r) (r_hanzi r) (r_onyomi r) (r_kunyomi r) (r_kmean r)
           (r_level r) (r_kpriority r) (r_kinfo r) (r_kanki r).

(** The second query raises [sqlite3.Error] as well when its pattern is
    longer than SQLite allows: the comparison that refuses the pattern is
    made at the first row, so a table without rows raises nothing. *)
Definition get_words (conn : Connection) (search_word : option pystr) : Py (list Word.t) :=
  match words conn with
  | Some table =>
      let results := List.filter (fun r => sql_eq (r_word r) search_word) table in
      match results with
      | [] =>
          let pattern := py "%" ++ py_format search_word ++ py "%" in
          if bool_decide (SQLITE_MAX_LIKE_PATTERN_LENGTH < utf8_length pattern)
             && bool_decide (table ≠ [])
          then
            print DatabaseError;;
            mret []
          else
            let results := List.filter (fun r => sql_like (r_phonetic r) pattern) table in
            mret (map word_of_row results)
      | _ => mret (map word_of_row results)
      end
  | None =>
      print DatabaseError;;
      mret []
  end.

Definition get_kanji (conn : Connection) (kanji_char : pystr) : Py (option Kanji.t) :=
  match kanji conn with
  | Some table =>
      match List.filter (fun r => sql_eq (r_kanji r) (Some kanji_char)) table with
      | result :: _ => mret (Some (kanji_of_row result))
      | [] => mret None
      end
  | None =>
      print DatabaseError;;
      mret None
  end.

(** ['一' <= char <= '鿿'] *)
Definition ideographic (char : Z) : bool := (19968 <=? char) && (char <=? 40959).

Fixpoint get_kanji_from_chars (conn : Connection) (chars : pystr)
    (kanjis : list Kanji.t) : Py (list Kanji.t) :=
  match chars with
  | [] => mret kanjis
  | char :: chars' =>
      if ideographic char then
        k ← get_kanji conn [char];
        match k with
        | Some k => get_kanji_from_chars conn chars' (kanjis ++ [k])
        | None => get_kanji_from_chars conn chars' kanjis
        end
      else get_kanji_from_chars conn chars' kanjis
  end.

(** Iterating over [None] raises [TypeError]. *)
Definition get_kanji_from_word (conn : Connection) (word : option pystr) : Py (list Kanji.t) :=
  match word with
  | Some chars => get_kanji_from_chars conn chars []
  | None => raise TypeError
  end.

Fixpoint first_exact (input_word : option pystr) (word_list : list Word.t) : option Word.t :=
  match word_list with
  | [] => None
  | w :: rest =>
      if bool_decide (Some (Word.word w) = input_word) then Some w
      else first_exact input_word rest
  end.

Fixpoint first_phonetic (input_word : option pystr) (word_list : list Word.t) : option Word.t :=
  match word_list with
  | [] => None
  | w :: rest =>
      if truthy (Word.phonetic w)
         && py_in input_word (split SPACE (py_format (Word.phonetic w)))
      then Some w
      else first_phonetic input_word rest
  end.

Definition filter_word (input_word : option pystr) (word_list : list Word.t) : option Word.t :=
  match word_list with
  | [] => None
  | _ =>
      match first_exact input_word word_list with
      | Some w => Some w
      | None => first_phonetic input_word word_list
      end
  end.

(** One of the two loops of [find_relevant_word]: the first element whose
    text finds a word ends the loop. *)
Fixpoint find_in_elements (conn : Connection) (elements : list Element) : Py (option Word.t) :=
  match elements with
  | [] => mret None
  | ele :: rest =>
      let form := text ele in
      words ← get_words conn form;
      match filter_word form words with
      | Some word => mret (Some word)
      | None => find_in_elements conn rest
      end
  end.

Definition find_relevant_word (conn : Connection)
    (kanji_elements reading_elements : list Element) : Py (option Word.t) :=
  word ← find_in_elements conn kanji_elements;
  match word with
  | Some word => mret (Some word)
  | None => find_in_elements conn reading_elements
  end.

(** ** Processing one entry *)

(** The inner loop of the collection: the records found for one headword
    form are added unless their character was seen before. *)
Fixpoint add_unseen (found : list Kanji.t) (seen_kanji : gset (option pystr))
    (kanjis : list Kanji.t) : gset (option pystr) * list Kanji.t :=
  match found with
  | [] => (seen_kanji, kanjis)
  | k :: found' =>
      if bool_decide (Kanji.kanji k ∉ seen_kanji)
      then add_unseen found' ({[Kanji.kanji k]} ∪ seen_kanji) (kanjis ++ [k])
      else add_unseen found' seen_kanji kanjis
  end.

Fixpoint collect_from (conn : Connection) (kanji_elements : list Element)
    (seen_kanji : gset (option pystr)) (kanjis : list Kanji.t) : Py (list Kanji.t) :=
  match kanji_elements with
  | [] => mret kanjis
  | k_ele :: rest =>
      let kanji_text := text k_ele in
      found ← get_kanji_from_word conn kanji_text;
      let '(seen_kanji, kanjis) := add_unseen found seen_kanji kanjis in
      collect_from conn rest seen_kanji kanjis
  end.

(** "Collect kanji data from all kanji elements" *)
Definition collect_kanjis (conn : Connection) (kanji_elements : list Element) : Py (list Kanji.t) :=
  collect_from conn kanji_elements ∅ [].

(** "Create StarDict entry" *)
Definition make_stardict (kanjis : list Kanji.t) (word : option Word.t) : StarDict.t :=
  {| StarDict.hanzi :=
       join (py " | ")
            (map (fun k => py_format (Kanji.hanzi k))
                 (List.filter (fun k => truthy (Kanji.hanzi k)) kanjis));
     StarDict.hanzi_anki :=
       map (fun k => py_format (Kanji.kanji k) ++ py " : " ++ py_format (Kanji.anki k))
           (List.filter (fun k => truthy (Kanji.anki k)) kanjis);
     StarDict.mean := match word with Some w => Word.mean w | None => [] end;
     StarDict.mean_anki := match word with Some w => Word.anki w | None => Some [] end |}.

(** "Insert new sense elements" *)
Definition insert_senses (entry : Element) (xml_sense_elements : list Element) : Element :=
  match xml_sense_elements with
  | [] => entry
  | _ =>
      let existing_senses := ET.findall_at entry (py "sense") in
      match existing_senses with
      | (first_sense_index, _) :: _ =>
          fold_left (fun entry elem => ET.insert entry first_sense_index elem)
                    (reverse xml_sense_elements) entry
      | [] =>
          fold_left (fun entry elem => ET.append entry elem) xml_sense_elements entry
      end
  end.

(** The body of [process_entry] between parsing and serialisation. *)
Definition process_element (db_conn : Connection) (entry : Element) : Py Element :=
  let kanji_elements := ET.findall2 entry (py "k_ele") (py "keb") in
  let reading_elements := ET.findall2 entry (py "r_ele") (py "reb") in
  kanjis ← collect_kanjis db_conn kanji_elements;
  word ← find_relevant_word db_conn kanji_elements reading_elements;
  let stardict := make_stardict kanjis word in
  let xml_sense_elements := StarDict.to_xml_sense_elements stardict in
  mret (insert_senses entry xml_sense_elements).

(** ** Serialisation, the worker pool and the orchestrator *)

Section Orchestrator.
(** [ET.fromstring] ([None] when it raises [ET.ParseError]) and
    [ET.tostring(_, encoding='unicode')]. *)
Variable fromstring : pystr → option Element.
Variable tostring : Element → pystr.

Definition process_entry (db_conn : Connection) (entry_str : pystr) : Py pystr :=
  match fromstring entry_str with
  | Some entry =>
      entry ← process_element db_conn entry;
      mret (tostring entry)
  | None => raise ParseError
  end.

(** [pool.imap(func, tasks)]: the workers finish the tasks in some order
    [completion]; each result is stored under the index of its task, and
    the iterator hands the results out by index. It gives nothing for a
    task that never finishes. What a worker prints goes to the worker's
    own output. *)
Definition pool_results {A B} (func : A → Py B) (tasks : list A)
    (completion : list nat) : gmap nat (outcome B) :=
  foldr (fun i done =>
           match tasks !! i with
           | Some task => <[i := value (func task)]> done
           | None => done
           end) ∅ completion.

Definition pool_imap {A B} (func : A → Py B) (tasks : list A)
    (completion : list nat) : option (list (outcome B)) :=
  mapM (fun i => pool_results func tasks completion !! i) (seq 0 (length tasks)).

(** [list(iterator)]: the first result that is an exception is raised
    again in the caller. *)
Fixpoint collect_results {B} (results : list (outcome B)) : Py (list B) :=
  match results with
  | [] => mret []
  | Return b :: rest => bs ← collect_results rest; mret (b :: bs)
  | Raise e :: _ => raise e
  end.

(** The loop "Updating XML tree with processed entries". *)
Fixpoint update_tree (entries : list Element) (i : nat)
    (modified_entry_strs : list pystr) (root : Element) : Py Element :=
  match modified_entry_strs with
  | [] => mret root
  | modified_str :: rest =>
      root ←
        match fromstring modified_str with
        | Some entry => ET.setitem root i entry
        | None =>
            print (ErrorParsingEntry i);;
            match entries !! i with
            | Some original => ET.setitem root i original
            | None => raise IndexError
            end
        end;
      update_tree entries (S i) rest root
  end.

(** The run on a parsed corpus, up to [tree.write]: the result is the tree
    that is written to [output_path], and nothing is written when the run
    raises before. The report printed after the write (elapsed time, and
    the average per entry, a division by the number of entries) is left
    out. [None] stands for a run that waits for a task that never
    finishes. *)
Definition update_jmdict_with_vietnamese_parallel (db_conn : Connection)
    (root : Element) (completion : list nat) : option (Py Element) :=
  let entries := ET.findall_desc root (py "entry") in
  let entry_strs := map tostring entries in
  results ← pool_imap (process_entry db_conn) entry_strs completion;
  Some (modified_entry_strs ← collect_results results;
        update_tree entries 0%nat modified_entry_strs root).
End Orchestrator.

(** ** Merging chunk files ([3_merge_xml_file.py]) *)

(** A file of the input folder: its path and what [ET.parse] makes of it,
    the root of a tree or an exception: [ET.ParseError] for a text that is
    not well formed, [ValueError] or [LookupError] for a declared encoding
    that the parser does not support, [OSError] for a file that cannot be
    read. *)
Definition xml_file : Type := pystr * outcome Element.

(** The loop over the files. Only [ET.ParseError] has a handler; any other
    exception of [ET.parse] leaves the loop and the function. *)
Fixpoint merge_files (files : list xml_file) (merged_root : Element) : Py Element :=
  match files with
  | [] => mret merged_root
  | (path, parsed) :: rest =>
      match parsed with
      | Return root =>
          let merged_root :=
            fold_left (fun merged entry => ET.append merged entry)
                      (ET.findall root (py "entry")) merged_root in
          merge_files rest merged_root
      | Raise ParseError =>
          print (ErrorParsingFile path);;
          merge_files rest merged_root
      | Raise e => raise e
      end
  end.

(** The result is the root of the tree written to [output_file]; [files]
    are the files of the folder in the order [glob] yields them. When the
    loop raises, [output_file] is not opened and nothing is written. *)
Definition merge_xml_files (files : list xml_file) : Py Element :=
  merge_files files (ET.Element_ (py "JMdict")).

(** ** Definitions used to state the properties *)

(** The two blocks as they are written to the corpus. *)
Definition meaning_sense (gloss_text : pystr) (note : option pystr) : Element :=
  mkElement (py "sense") [] None None
    (mkElement (py "gloss") [(py "xml:lang", py "vi")] (Some gloss_text) None []
     :: match note with
        | Some ((_ :: _) as n) => [mkElement (py "misc") [] (Some n) None []]
        | _ => []
        end).

Definition character_sense (gloss_text : pystr) (notes : list pystr) : Element :=
  mkElement (py "sense") [] None None
    (mkElement (py "gloss") [] (Some gloss_text) None []
     :: map (fun n => mkElement (py "misc") [] (Some n) None []) notes).

(** The renderings that make up the character-variant string of a list of
    character records. *)
Definition variants (kanjis : list Kanji.t) : list pystr :=
  omap (fun k => match Kanji.hanzi k with Some ((_ :: _) as h) => Some h | _ => None end) kanjis.

(** The clauses of a meaning text: the text cut at every semicolon, each
    piece trimmed. *)
Definition clauses (meaning : pystr) : list pystr :=
  map strip (split SEMICOLON meaning).

(** A clause in Vietnamese script has a character in U+00C0..U+1EF9. *)
Definition vietnamese_script (clause : pystr) : Prop :=
  Exists (fun c => 192 ≤ c ≤ 7929) clause.

#[global] Instance vietnamese_script_dec clause : Decision (vietnamese_script clause).
Proof. unfold vietnamese_script. apply _. Defined.

(** The gloss text the claim describes for a record's meaning text. *)
Definition gloss_text (meaning : pystr) : pystr :=
  match filter vietnamese_script (clauses meaning) with
  | [] => meaning
  | qualifying => join (py "; ") qualifying
  end.

(** The notes of the character-sense block: one per record that has an
    annotation reference. *)
Definition notes (kanjis : list Kanji.t) : list pystr :=
  omap (fun k =>
          match Kanji.anki k with
          | Some ((_ :: _) as a) => Some (py_format (Kanji.kanji k) ++ py " : " ++ a)
          | _ => None
          end) kanjis.

(** The candidates the store returns for a query. *)
Definition candidates (conn : Connection) (query : option pystr) : list Word.t :=
  match value (get_words conn query) with
  | Return ws => ws
  | Raise _ => []
  end.

(** The tokens of a text split on whitespace, in the words of the
    specification ([str.split()] without a separator): the maximal runs of
    characters that are not whitespace. [current] is the run being read,
    last character first. *)
Fixpoint whitespace_runs (s : pystr) (current : pystr) : list pystr :=
  match s with
  | [] => match current with [] => [] | _ => [reverse current] end
  | c :: s' =>
      if py_isspace c then
        match current with
        | [] => whitespace_runs s' []
        | _ => reverse current :: whitespace_runs s' []
        end
      else whitespace_runs s' (c :: current)
  end.

Definition whitespace_tokens (s : pystr) : list pystr := whitespace_runs s [].

(** The tokens of a phonetic field as the code cuts it, at every space
    character; a missing or empty field has none. *)
Definition tokens (phonetic : option pystr) : list pystr :=
  match phonetic with
  | Some ((_ :: _) as p) => split SPACE p
  | _ => []
  end.

(** The headword of a candidate is the one [Word] keeps: the headword of
    its record with the whitespace at both ends trimmed. *)
Definition exact_match (query : option pystr) (w : Word.t) : Prop :=
  query = Some (Word.word w).

Definition token_match (query : option pystr) (w : Word.t) : Prop :=
  match query with
  | Some q => q ∈ tokens (Word.phonetic w)
  | None => False
  end.

#[global] Instance exact_match_dec query w : Decision (exact_match query w).
Proof. unfold exact_match. apply _. Defined.

#[global] Instance token_match_dec query w : Decision (token_match query w).
Proof. destruct query; simpl; apply _. Defined.

(** The candidate accepted for a query: the first exact match, and only
    without one the first token match. *)
Definition accepted (query : option pystr) (cands : list Word.t) : option Word.t :=
  match list_find (exact_match query) cands with
  | Some (_, w) => Some w
  | None => snd <$> list_find (token_match query) cands
  end.

(** The result of the first form, in the order given, that has an
    accepted candidate. *)
Definition first_accepted (conn : Connection) (forms : list (option pystr)) : option Word.t :=
  '(_, form) ← list_find (fun q => is_Some (accepted q (candidates conn q))) forms;
  accepted form (candidates conn form).

(** The record of a character: the first row of the character table that
    is keyed by it; none when the table cannot be queried. *)
Definition character_record (conn : Connection) (c : Z) : option Kanji.t :=
  match kanji conn with
  | Some table => (kanji_of_row ∘ snd) <$> list_find (fun r => r_kanji r = Some [c]) table
  | None => None
  end.

(** The ideographic characters of the headword forms, in reading order. *)
Definition ideographs (forms : list pystr) : list Z :=
  filter (fun c => 19968 ≤ c ≤ 40959) (concat forms).

(** The distinct characters of a sequence, each at its first occurrence. *)
Fixpoint first_occurrences (l : list Z) : list Z :=
  match l with
  | [] => []
  | c :: l' => c :: filter (fun d => d ≠ c) (first_occurrences l')
  end.

(** The records that [add_unseen] keeps. *)
Fixpoint unseen (seen : gset (option pystr)) (found : list Kanji.t) : list Kanji.t :=
  match found with
  | [] => []
  | k :: found' =>
      if decide (Kanji.kanji k ∈ seen) then unseen seen found'
      else k :: unseen ({[Kanji.kanji k]} ∪ seen) found'
  end.

(** What one file of the folder contributes to the merged corpus and to
    the printed lines. *)
Definition chunk_entries (file : xml_file) : list Element :=
  match file.2 with
  | Return root => filter (fun c => tag c = py "entry") (children root)
  | Raise _ => []
  end.

Definition chunk_errors (file : xml_file) : list event :=
  match file.2 with
  | Raise ParseError => [ErrorParsingFile file.1]
  | _ => []
  end.

(** A file that [ET.parse] reads as a tree or refuses with
    [ET.ParseError]. *)
Definition parsed_or_malformed (file : xml_file) : Prop :=
  match file.2 with
  | Return _ => True
  | Raise e => e = ParseError
  end.

#[global] Instance parsed_or_malformed_dec file : Decision (parsed_or_malformed file).
Proof. unfold parsed_or_malformed. destruct (file.2); apply _. Defined.

(** A corpus in the format of the sharding step: the children of the root
    are entries, and no entry lies inside another element. *)
Definition is_corpus (root : Element) : bool :=
  forallb (fun c => ET.has_tag (py "entry") c
                    && forallb (fun d => negb (ET.has_tag (py "entry") d)) (ET.descendants c))
          (children root).

(** The warnings of the update loop: one for each returned form, counted
    from [i], that does not parse. *)
Fixpoint parse_failures (fromstring : pystr → option Element) (i : nat)
    (modified_entry_strs : list pystr) : list event :=
  match modified_entry_strs with
  | [] => []
  | modified_str :: rest =>
      match fromstring modified_str with
      | Some _ => parse_failures fromstring (S i) rest
      | None => ErrorParsingEntry i :: parse_failures fromstring (S i) rest
      end
  end.

(** ** Sample data *)

Module Sample.

(** 日, 本, 語 and the reading にほんご. *)
Definition NICHI : Z := 26085.
Definition HON : Z := 26412.
Definition GO : Z := 35486.
Definition nihongo : pystr := [NICHI; HON; GO].
Definition reading : pystr := [12395; 12411; 12435; 12372].

(** "tiếng Nhật" and "NHẬT". *)
Definition tieng_nhat : pystr := py "ti" ++ [7871] ++ py "ng Nh" ++ [7853] ++ py "t".
Definition nhat : pystr := py "NH" ++ [7852] ++ py "T".

Definition word_row : WordRow :=
  {| r_word := Some nihongo;
     r_phonetic := Some (reading ++ py " nihongo");
     r_mean := Some (tieng_nhat ++ py "; Japanese language");
     r_is_common := Some 1;
     r_priority := None;
     r_info := None;
     r_anki := Some (py "w-1") |}.

Definition kanji_row (c : Z) (hanzi anki : option pystr) : KanjiRow :=
  mkKanjiRow (Some [c]) hanzi None None None None None None anki.

(** 日 has a rendering and an annotation, 本 only an annotation. *)
Definition conn : Connection :=
  {| words := Some [word_row];
     kanji := Some [kanji_row NICHI (Some nhat) (Some (py "day-note"));
                    kanji_row HON None (Some (py "book-note"))] |}.

(** A store whose only record separates the tokens of its phonetic field
    with a tab. *)
Definition word_row_tab : WordRow :=
  {| r_word := Some nihongo;
     r_phonetic := Some (reading ++ [9] ++ py "nihongo");
     r_mean := Some (tieng_nhat ++ py "; Japanese language");
     r_is_common := Some 1;
     r_priority := None;
     r_info := None;
     r_anki := Some (py "w-1") |}.

Definition conn_tab : Connection :=
  {| words := Some [word_row_tab]; kanji := Some [] |}.

(** A store whose records have headwords with a space before or after:
    [' 日本語'] read [nihongo], and ['X '] read [aXb]. *)
Definition word_row_leading : WordRow :=
  {| r_word := Some (SPACE :: nihongo);
     r_phonetic := Some (py "nihongo");
     r_mean := Some tieng_nhat;
     r_is_common := Some 1;
     r_priority := None;
     r_info := None;
     r_anki := None |}.

Definition word_row_trailing : WordRow :=
  {| r_word := Some (py "X ");
     r_phonetic := Some (py "aXb");
     r_mean := Some (py "x");
     r_is_common := Some 0;
     r_priority := None;
     r_info := None;
     r_anki := None |}.

Definition conn_padded : Connection :=
  {| words := Some [word_row_leading; word_row_trailing]; kanji := Some [] |}.

Definition leaf (name : string) (content : option pystr) : Element :=
  mkElement (py name) [] content None [].
Definition node (name : string) (cs : list Element) : Element :=
  mkElement (py name) [] None None cs.

Definition keb (form : pystr) : Element := leaf "keb" (Some form).
Definition reb (form : pystr) : Element := leaf "reb" (Some form).
Definition english : Element := node "sense" [leaf "gloss" (Some (py "Japanese"))].

(** An entry for 日本語 with one existing sense. *)
Definition entry_nihongo : Element :=
  node "entry" [leaf "ent_seq" (Some (py "1"));
                node "k_ele" [keb nihongo];
                node "r_ele" [reb reading];
                english].

(** What processing makes of it. *)
Definition entry_nihongo_vi : Element :=
  node "entry" [leaf "ent_seq" (Some (py "1"));
                node "k_ele" [keb nihongo];
                node "r_ele" [reb reading];
                meaning_sense tieng_nhat (Some (py "w-1"));
                character_sense nhat [[NICHI] ++ py " : day-note"; [HON] ++ py " : book-note"];
                english].

(** An entry for 日 alone: no word of the store matches it. *)
Definition entry_nichi : Element :=
  node "entry" [node "k_ele" [keb [NICHI]]; english].
Definition entry_nichi_vi : Element :=
  node "entry" [node "k_ele" [keb [NICHI]];
                character_sense nhat [[NICHI] ++ py " : day-note"];
                english].

(** An entry for 本 alone: no word matches, and the record of 本 has no
    rendering. *)
Definition entry_hon : Element :=
  node "entry" [node "k_ele" [keb [HON]]; english].

(** An entry whose headword-form element has no text: [<keb />]. *)
Definition entry_empty_keb : Element :=
  node "entry" [node "k_ele" [leaf "keb" None]; english].

(** A serialisation for the examples: tags, attributes, text, children
    and tail written out without escapes. *)
Fixpoint xml_text (e : Element) : pystr :=
  py "<" ++ tag e
  ++ concat (map (fun kv : pystr * pystr => py " " ++ kv.1 ++ py "=" ++ [34] ++ kv.2 ++ [34])
                 (attrib e))
  ++ py ">" ++ default [] (text e)
  ++ (fix of_list (cs : list Element) : pystr :=
        match cs with
        | [] => []
        | c :: cs' => xml_text c ++ of_list cs'
        end) (children e)
  ++ py "</" ++ tag e ++ py ">" ++ default [] (tail e).

(** A parser for the examples: it knows the texts of the elements listed
    and fails on every other text. *)
Definition parse_known (known : list Element) (s : pystr) : option Element :=
  List.find (fun e => bool_decide (xml_text e = s)) known.

(** The parser of the runs below knows every sample entry, before and
    after processing. A returned form that does not parse is a text it was
    not given. *)
Definition fromstring : pystr → option Element :=
  parse_known [entry_nihongo; entry_nihongo_vi; entry_nichi; entry_nichi_vi;
               entry_hon; entry_empty_keb].
Definition fromstring_strict : pystr → option Element :=
  parse_known [entry_nihongo; entry_nichi; entry_nichi_vi; entry_hon].

(** A corpus of three entries. *)
Definition corpus : Element := node "JMdict" [entry_nihongo; entry_nichi; entry_hon].

(** A corpus with an entry whose headword form is empty. *)
Definition corpus_empty_keb : Element := node "JMdict" [entry_empty_keb].
Definition corpus_then_empty_keb : Element := node "JMdict" [entry_nichi; entry_empty_keb].

(** A well-formed document whose root has a child that is no entry. *)
Definition document_with_info : Element := node "JMdict" [leaf "info" None; entry_nichi].

(** The files of a folder: two chunks that parse around one that does
    not. *)
Definition folder : list xml_file :=
  [(py "jmdict_part_1.xml", Return (node "JMdict" [entry_nihongo; leaf "info" None; entry_nichi]));
   (py "jmdict_part_2.xml", Raise ParseError);
   (py "jmdict_part_3.xml", Return (node "JMdict" [entry_hon]))].

(** The same folder when the second file declares an encoding of several
    bytes per character, which [ET.parse] refuses with [ValueError]. *)
Definition folder_encoding : list xml_file :=
  [(py "jmdict_part_1.xml", Return (node "JMdict" [entry_nihongo; leaf "info" None; entry_nichi]));
   (py "jmdict_part_2.xml", Raise ValueError);
   (py "jmdict_part_3.xml", Return (node "JMdict" [entry_hon]))].

(** A folder with a file that is not well formed before one that cannot
    be read. *)
Definition folder_unreadable : list xml_file :=
  [(py "jmdict_part_1.xml", Raise ParseError);
   (py "jmdict_part_2.xml", Return (node "JMdict" [entry_hon]));
   (py "jmdict_part_3.xml", Raise OSError);
   (py "jmdict_part_4.xml", Return (node "JMdict" [entry_nichi]))].

End Sample.
(** ** Sharding ([1_split_xml_file.py]) *)

(** [range(n)] *)
Definition py_range (n : Z) : list Z := map Z.of_nat (seq 0 (Z.to_nat n)).

(** The bound of a slice brought into [0..len]: a negative bound counts
    from the end. *)
Definition slice_index (len i : Z) : Z :=
  if i <? 0 then Z.max (i + len) 0 else Z.min i len.

(** [l[start:stop]] *)
Definition py_slice {A} (l : list A) (start stop : Z) : list A :=
  let len := Z.of_nat (length l) in
  let first := slice_index len start in
  let last := slice_index len stop in
  take (Z.to_nat (last - first)) (drop (Z.to_nat first) l).

(** [str(n)] for an integer. *)
Definition py_str (n : Z) : pystr := py (pretty n).

(** What the scripts raise beside the exceptions of the workers. *)
Inductive script_exn : Type :=
| ZeroDivisionError
| Uncaught (e : exn).

Inductive script (A : Type) : Type :=
| Finished (a : A)
| Aborted (e : script_exn).
Arguments Finished {A} a.
Arguments Aborted {A} e.

(** One turn of the loop of [split_jmdict]: the name of the file (inside
    [output_dir]) and the tree written to it. *)
Definition split_file (root : Element) (entries : list Element)
    (entries_per_file total_entries i : Z) : pystr * Element :=
  let new_root := mkElement (tag root) (attrib root) None None [] in
  let start := i * entries_per_file in
  let end_ := Z.min ((i + 1) * entries_per_file) total_entries in
  let new_root :=
    fold_left (fun new_root entry => ET.append new_root entry)
              (py_slice entries start end_) new_root in
  (py "jmdict_part_" ++ py_str (i + 1) ++ py ".xml", new_root).

(** [split_jmdict] on the parsed input: the files written, in order. The
    number of files is a floor division, which raises for a chunk size of
    zero before anything is written. *)
Definition split_jmdict (root : Element) (entries_per_file : Z) : script (list (pystr * Element)) :=
  let entries := ET.findall root (py "entry") in
  let total_entries := Z.of_nat (length entries) in
  if entries_per_file =? 0 then Aborted ZeroDivisionError
  else
    let num_files := (total_entries + entries_per_file - 1) `div` entries_per_file in
    Finished (map (split_file root entries entries_per_file total_entries)
                  (py_range num_files)).

(** ** The whole run on a file, and the main loop of [2_add_vi.py] *)

Section Script.
Variable fromstring : pystr → option Element.
Variable tostring : Element → pystr.

(** [update_jmdict_with_vietnamese_parallel] from [ET.parse] to its last
    line, for a file given by what [ET.parse] makes of it ([None] when it
    raises [ET.ParseError]): the tree written to [output_path], if the
    call gets that far, and how the call ends. After the write the report
    divides the elapsed time by the number of entries. [None] stands for a
    run that waits for a task that never finishes. *)
Definition update_file (db_conn : Connection) (parsed : option Element)
    (completion : list nat) : option (option Element * script ()) :=
  match parsed with
  | None => Some (None, Aborted (Uncaught ParseError))
  | Some root =>
      run ← update_jmdict_with_vietnamese_parallel fromstring tostring db_conn root completion;
      Some match value run with
           | Raise e => (None, Aborted (Uncaught e))
           | Return out =>
               let total_entries := length (ET.findall_desc root (py "entry")) in
               (Some out,
                if bool_decide (total_entries = 0%nat)
                then Aborted ZeroDivisionError
                else Finished ())
           end
  end.

(** A file of the input folder: its name, what [ET.parse] makes of it, and
    the order in which the workers finish its tasks. *)
Record input_file : Type := mkInput {
  file_name : pystr;
  parsed : option Element;
  completion : list nat
}.

(** The loop of the main block over the files of the input folder, on an
    output folder given by the trees of its files: the output folder at
    the end, and how the script ends. A file whose output exists is
    skipped; an exception ends the script. *)
Fixpoint main (db_conn : Connection) (xml_files : list input_file)
    (output_folder : gmap pystr Element) : option (gmap pystr Element * script ()) :=
  match xml_files with
  | [] => Some (output_folder, Finished ())
  | input :: rest =>
      match output_folder !! file_name input with
      | Some _ => main db_conn rest output_folder
      | None =>
          '(written, ended) ← update_file db_conn (parsed input) (completion input);
          let output_folder :=
            match written with
            | Some out => <[file_name input := out]> output_folder
            | None => output_folder
            end in
          match ended with
          | Finished _ => main db_conn rest output_folder
          | Aborted e => Some (output_folder, Aborted e)
          end
      end
  end.
End Script.

(** ** More sample data *)

Module Sample2.
Import Sample.

(** A document in which one entry lies inside another. *)
Definition entry_outer : Element := node "entry" [entry_hon].
Definition document_nested : Element := node "JMdict" [entry_outer].
Definition fromstring_nested : pystr → option Element :=
  parse_known [entry_outer; entry_hon].

(** The files of an input folder: the three-entry corpus, a file without
    entries, and a one-entry corpus. *)
Definition input_folder : list (input_file) :=
  [mkInput (py "jmdict_part_1.xml") (Some corpus) [2; 0; 1]%nat;
   mkInput (py "jmdict_part_2.xml") (Some (node "JMdict" [])) [];
   mkInput (py "jmdict_part_3.xml") (Some (node "JMdict" [entry_hon])) [0%nat]].

(** The input folder without the file that has no entries. *)
Definition input_folder_entries : list (input_file) :=
  [mkInput (py "jmdict_part_1.xml") (Some corpus) [2; 0; 1]%nat;
   mkInput (py "jmdict_part_3.xml") (Some (node "JMdict" [entry_hon])) [0%nat]].

(** An output folder that holds an output for the first file already. *)
Definition output_folder_stale : gmap pystr Element :=
  {[ py "jmdict_part_1.xml" := node "JMdict" [] ]}.

(** The output folder after the two files with entries were processed. *)
Definition output_folder_done : gmap pystr Element :=
  <[py "jmdict_part_3.xml" := node "JMdict" [entry_hon]]>
    (<[py "jmdict_part_1.xml" := node "JMdict" [entry_nihongo_vi; entry_nichi_vi; entry_hon]]> ∅).

(** A store whose tables cannot be queried. *)
Definition conn_down : Connection := {| words := None; kanji := None |}.

(** The files that splitting the three-entry corpus by two writes. *)
Definition corpus_split : list (pystr * Element) :=
  [(py "jmdict_part_1.xml", node "JMdict" [entry_nihongo; entry_nichi]);
   (py "jmdict_part_2.xml", node "JMdict" [entry_hon])].
(** A store with one record whose phonetic field begins with U+0000. *)
Definition word_row_nul : WordRow :=
  {| r_word := Some (py "a");
     r_phonetic := Some (0 :: py " b");
     r_mean := Some (py "x");
     r_is_common := None;
     r_priority := None;
     r_info := None;
     r_anki := None |}.

Definition conn_nul : Connection :=
  {| words := Some [word_row_nul]; kanji := Some [] |}.

End Sample2.

(** * Properties *)

(** ** The monad *)

Lemma value_bind {A B} (m : Py A) (f : A → Py B) :
  value (m ≫= f) =
  match value m with
  | Return a => value (f a)
  | Raise e => Raise e
  end.
Proof. destruct m as [[a|e] out]; reflexivity. Qed.

Lemma bind_ret_l {A B} (a : A) (f : A → Py B) : mret a ≫= f = f a.
Proof. unfold mbind, Py_bind, mret, Py_ret. simpl. by destruct (f a). Qed.

(** ** The synthesised sense blocks *)

Lemma fold_append_children (sense : Element) (notes : list pystr) :
  fold_left (fun s n => ET.append s (StarDict.misc n)) notes sense =
  ET.with_children sense (children sense ++ map StarDict.misc notes).
Proof.
  revert sense. induction notes as [|n notes IH]; intros sense; simpl.
  - rewrite app_nil_r. by destruct sense.
  - rewrite IH. unfold ET.append, ET.with_children. simpl.
    by rewrite <- app_assoc.
Qed.

Lemma to_xml_sense_elements_blocks (sd : StarDict.t) :
  StarDict.to_xml_sense_elements sd =
  match StarDict.mean sd with
  | [] => []
  | _ => [meaning_sense (StarDict.mean sd) (StarDict.mean_anki sd)]
  end ++
  match StarDict.hanzi sd with
  | [] => []
  | _ => [character_sense (StarDict.hanzi sd) (StarDict.hanzi_anki sd)]
  end.
Proof.
  destruct sd as [hanzi hanzi_anki mean mean_anki].
  unfold StarDict.to_xml_sense_elements. simpl.
  assert (Hh : ∀ pre : list Element,
    (if truthy (Some hanzi)
     then pre ++ [fold_left (fun s n => ET.append s (StarDict.misc n)) hanzi_anki
                    (ET.append (ET.Element_ (py "sense"))
                       (ET.set_text (ET.Element_ (py "gloss")) hanzi))]
     else pre) =
    pre ++ match hanzi with [] => [] | _ => [character_sense hanzi hanzi_anki] end).
  { intros pre. destruct hanzi as [|c hanzi]; simpl; [by rewrite app_nil_r|].
    by rewrite fold_append_children. }
  rewrite Hh. f_equal.
  destruct mean as [|c mean]; [done|].
  destruct mean_anki as [[|a anki]|]; reflexivity.
Qed.


Lemma make_stardict_hanzi (kanjis : list Kanji.t) (word : option Word.t) :
  StarDict.hanzi (make_stardict kanjis word) = join (py " | ") (variants kanjis).
Proof.
  simpl. f_equal. induction kanjis as [|k kanjis IH]; [done|].
  simpl. destruct (Kanji.hanzi k) as [[|c h]|] eqn:E; simpl; rewrite ?E; simpl;
    by rewrite IH.
Qed.

Lemma join_nil_inv (sep : pystr) (pieces : list pystr) :
  Forall (fun p => p ≠ []) pieces → join sep pieces = [] → pieces = [].
Proof.
  intros Hne Hj. destruct pieces as [|p pieces]; [done|].
  apply Forall_cons in Hne as [Hp _].
  destruct pieces; simpl in Hj; [done|].
  by destruct p.
Qed.

Lemma variants_nonempty (kanjis : list Kanji.t) :
  Forall (fun p => p ≠ []) (variants kanjis).
Proof.
  induction kanjis as [|k kanjis IH]; [constructor|].
  unfold variants. simpl. destruct (Kanji.hanzi k) as [[|c h]|]; simpl; try done.
  by constructor.
Qed.

Lemma variants_none (kanjis : list Kanji.t) :
  Forall (fun k => truthy (Kanji.hanzi k) = false) kanjis → variants kanjis = [].
Proof.
  induction 1 as [|k kanjis Hk _ IH]; [done|].
  unfold variants. simpl. by destruct (Kanji.hanzi k) as [[|c h]|].
Qed.

Lemma make_stardict_hanzi_anki (kanjis : list Kanji.t) (word : option Word.t) :
  StarDict.hanzi_anki (make_stardict kanjis word) = notes kanjis.
Proof.
  simpl. induction kanjis as [|k kanjis IH]; [done|].
  unfold notes. simpl. destruct (Kanji.anki k) as [[|c a]|] eqn:E; simpl; rewrite ?E; simpl;
    by rewrite IH.
Qed.

(** The blocks synthesised for an entry, from its collected character
    records and its matched word. *)
Lemma synthesised_blocks (kanjis : list Kanji.t) (word : option Word.t) :
  StarDict.to_xml_sense_elements (make_stardict kanjis word) =
  match word with
  | Some w =>
      match Word.mean w with
      | [] => []
      | _ => [meaning_sense (Word.mean w) (Word.anki w)]
      end
  | None => []
  end ++
  match variants kanjis with
  | [] => []
  | _ => [character_sense (join (py " | ") (variants kanjis)) (notes kanjis)]
  end.
Proof.
  rewrite to_xml_sense_elements_blocks.
  rewrite make_stardict_hanzi, make_stardict_hanzi_anki. f_equal.
  - by destruct word.
  - destruct (join (py " | ") (variants kanjis)) eqn:E.
    + apply join_nil_inv in E; [by rewrite E | apply variants_nonempty].
    + destruct (variants kanjis); [done|reflexivity].
Qed.

(** ** C10: records without an alternate-script rendering *)

(** C10. When none of the collected character records has an
    alternate-script rendering, no character-sense block is synthesised:
    the blocks are those of the matched word alone (at most the
    meaning-sense block), the same as if no character record had been
    collected at all, whatever annotation references the records carry. *)
Theorem no_rendering_no_character_sense (kanjis : list Kanji.t) (word : option Word.t) :
  Forall (fun k => truthy (Kanji.hanzi k) = false) kanjis →
  StarDict.to_xml_sense_elements (make_stardict kanjis word) =
    match word with
    | Some w =>
        match Word.mean w with
        | [] => []
        | _ => [meaning_sense (Word.mean w) (Word.anki w)]
        end
    | None => []
    end
  ∧ StarDict.to_xml_sense_elements (make_stardict kanjis word) =
    StarDict.to_xml_sense_elements (make_stardict [] word).
Proof.
  intros Hnone.
  rewrite !synthesised_blocks, (variants_none kanjis Hnone).
  simpl. by rewrite app_nil_r.
Qed.

(** ** C7: where the new blocks go *)

Lemma findall_at_first (name : pystr) (cs : list Element) (k : nat) :
  match List.filter (fun ic : nat * Element => ET.has_tag name ic.2)
                    (imap (fun i c => ((k + i)%nat, c)) cs) with
  | [] => Forall (fun c => tag c ≠ name) cs
  | (i, _) :: _ =>
      ∃ before first after,
        cs = before ++ first :: after ∧ i = (k + length before)%nat ∧
        Forall (fun c => tag c ≠ name) before ∧ tag first = name
  end.
Proof.
  revert k. induction cs as [|c cs IH]; intros k; simpl; [constructor|].
  unfold ET.has_tag at 1. simpl. case_bool_decide as Htag.
  - exists (@nil Element), c, cs. split_and!; [done | simpl; lia | constructor | done].
  - specialize (IH (S k)).
    rewrite (imap_ext _ (fun i c => ((S k + i)%nat, c))); [|intros; simpl; f_equal; lia].
    destruct (List.filter _ _) as [|[i first] found].
    + by constructor.
    + destruct IH as (before & first' & after & -> & -> & Hbefore & Hfirst).
      exists (c :: before), first', after.
      split_and!; [done | simpl; lia | by constructor | done].
Qed.

Lemma fold_insert_reverse (entry : Element) (blocks : list Element) (i : nat) :
  (i ≤ length (children entry))%nat →
  fold_left (fun entry elem => ET.insert entry i elem) (reverse blocks) entry =
  ET.with_children entry (take i (children entry) ++ blocks ++ drop i (children entry)).
Proof.
  intros Hi. induction blocks as [|b blocks IH]; simpl.
  - rewrite take_drop. by destruct entry.
  - rewrite reverse_cons, fold_left_app, IH. simpl.
    unfold ET.insert, ET.with_children. simpl. f_equal.
    rewrite take_app_le, drop_app_ge by (rewrite length_take; lia).
    rewrite take_take, length_take.
    replace (i `min` i)%nat with i by lia.
    replace (i - i `min` length (children entry))%nat with 0%nat by lia.
    done.
Qed.

Lemma fold_append (entry : Element) (blocks : list Element) :
  fold_left (fun entry elem => ET.append entry elem) blocks entry =
  ET.with_children entry (children entry ++ blocks).
Proof.
  revert entry. induction blocks as [|b blocks IH]; intros entry; simpl.
  - rewrite app_nil_r. by destruct entry.
  - rewrite IH. unfold ET.append, ET.with_children. simpl. by rewrite <- app_assoc.
Qed.

(** C7. Merging an empty block list returns the entry unchanged. In
    general the children of the entry split into the part before the first
    existing sense block (which holds no sense block) and the part from it
    on (empty when the entry has no sense block); the merged entry has the
    same tag, attributes, text and tail, and its children are the first
    part, the new blocks in the order given, and the second part: before the
    first existing sense, or at the end when there is none. The synthesiser
    gives the meaning-sense block before the character-sense block. *)
Theorem new_blocks_before_first_sense (entry : Element) (blocks : list Element) :
  insert_senses entry [] = entry
  ∧ (∃ before after,
       children entry = before ++ after
       ∧ Forall (fun c => tag c ≠ py "sense") before
       ∧ match after with [] => True | first :: _ => tag first = py "sense" end
       ∧ insert_senses entry blocks =
         mkElement (tag entry) (attrib entry) (text entry) (tail entry)
                   (before ++ blocks ++ after))
  ∧ (∀ kanjis word, ∃ meaning character,
       StarDict.to_xml_sense_elements (make_stardict kanjis word) = meaning ++ character
       ∧ meaning = match word with
                   | Some w => match Word.mean w with
                               | [] => []
                               | _ => [meaning_sense (Word.mean w) (Word.anki w)]
                               end
                   | None => []
                   end
       ∧ character = match variants kanjis with
                     | [] => []
                     | _ => [character_sense (join (py " | ") (variants kanjis)) (notes kanjis)]
                     end).
Proof.
  split; [done|]. split.
  - pose proof (findall_at_first (py "sense") (children entry) 0) as Hfirst.
    destruct blocks as [|b blocks].
    + simpl.
      destruct (List.filter _ _) as [|[i first] found].
      * exists (children entry), (@nil Element). rewrite !app_nil_r.
        split_and!; [done.. | by destruct entry].
      * destruct Hfirst as (before & first' & after & Hcs & _ & Hbefore & Htag).
        exists before, (first' :: after). rewrite <- Hcs.
        split_and!; [done.. | by destruct entry].
    + unfold insert_senses, ET.findall_at.
      rewrite (imap_ext _ (fun i c => ((0 + i)%nat, c))) by done.
      destruct (List.filter _ _) as [|[i first] found].
      * exists (children entry), (@nil Element). rewrite !app_nil_r.
        split_and!; [done..|]. by rewrite fold_append.
      * destruct Hfirst as (before & first' & after & Hcs & -> & Hbefore & Htag).
        exists before, (first' :: after).
        split_and!; [done..|].
        rewrite fold_insert_reverse by (rewrite Hcs, length_app; lia).
        rewrite Hcs. simpl.
        rewrite take_app_length, drop_app_length. done.
  - intros kanjis word. eexists _, _. split; [apply synthesised_blocks|done].
Qed.

(** ** C2: the order of matching *)

Lemma get_words_value (conn : Connection) (query : option pystr) :
  value (get_words conn query) = Return (candidates conn query).
Proof.
  unfold candidates, get_words. destruct (words conn) as [table|]; [|done].
  destruct (List.filter _ table); [|done]. by destruct (_ && _).
Qed.

Lemma first_exact_find (query : option pystr) (ws : list Word.t) :
  first_exact query ws = snd <$> list_find (exact_match query) ws.
Proof.
  induction ws as [|w ws IH]; [done|]. simpl.
  unfold exact_match at 1. case_bool_decide as Hq; case_decide as Hq'; try done.
  rewrite IH. by destruct (list_find _ ws) as [[i w']|].
Qed.

Lemma token_match_test (query : option pystr) (w : Word.t) :
  truthy (Word.phonetic w) && py_in query (split SPACE (py_format (Word.phonetic w))) = true
  ↔ token_match query w.
Proof.
  unfold token_match, tokens, py_in.
  destruct query as [q|], (Word.phonetic w) as [[|c p]|]; simpl;
    rewrite ?bool_decide_eq_true, ?andb_false_r; try done.
  all: split; try done; by intros ?%elem_of_nil.
Qed.

Lemma first_phonetic_find (query : option pystr) (ws : list Word.t) :
  first_phonetic query ws = snd <$> list_find (token_match query) ws.
Proof.
  induction ws as [|w ws IH]; [done|]. simpl.
  pose proof (token_match_test query w) as Htest.
  destruct (truthy _ && py_in _ _); case_decide as Hq; try done.
  - destruct Hq. by apply Htest.
  - by apply Htest in Hq.
  - rewrite IH. by destruct (list_find _ ws) as [[i w']|].
Qed.

Lemma filter_word_accepted (query : option pystr) (ws : list Word.t) :
  filter_word query ws = accepted query ws.
Proof.
  unfold filter_word, accepted.
  destruct ws as [|w ws]; [done|].
  rewrite first_exact_find, first_phonetic_find.
  by destruct (list_find (exact_match query) (w :: ws)) as [[i w']|].
Qed.

Lemma first_accepted_cons (conn : Connection) (q : option pystr) (forms : list (option pystr)) :
  first_accepted conn (q :: forms) =
  match accepted q (candidates conn q) with
  | Some w => Some w
  | None => first_accepted conn forms
  end.
Proof.
  unfold first_accepted. simpl. case_decide as Hq.
  - simpl. by destruct Hq as [w ->].
  - destruct (accepted q (candidates conn q)) as [w|] eqn:E; [by destruct Hq|].
    by destruct (list_find _ forms) as [[i q']|].
Qed.

Lemma first_accepted_app (conn : Connection) (tried rest : list (option pystr)) :
  first_accepted conn (tried ++ rest) =
  match first_accepted conn tried with
  | Some w => Some w
  | None => first_accepted conn rest
  end.
Proof.
  induction tried as [|q tried IH]; [done|].
  rewrite <- app_comm_cons, !first_accepted_cons, IH.
  by destruct (accepted q (candidates conn q)).
Qed.

Lemma find_in_elements_value (conn : Connection) (elements : list Element) :
  value (find_in_elements conn elements) = Return (first_accepted conn (map text elements)).
Proof.
  induction elements as [|ele rest IH]; [done|].
  simpl. rewrite value_bind, get_words_value, first_accepted_cons, filter_word_accepted.
  by destruct (accepted _ _).
Qed.

Lemma find_relevant_word_value (conn : Connection) (kanji_elements reading_elements : list Element) :
  value (find_relevant_word conn kanji_elements reading_elements) =
  Return (first_accepted conn (map text kanji_elements ++ map text reading_elements)).
Proof.
  unfold find_relevant_word.
  rewrite value_bind, find_in_elements_value, first_accepted_app.
  destruct (first_accepted conn (map text kanji_elements)); [done|].
  apply find_in_elements_value.
Qed.

Lemma candidates_from_table (conn : Connection) (query : option pystr) (w : Word.t) :
  w ∈ candidates conn query →
  ∃ table record, words conn = Some table ∧ record ∈ table ∧ w = word_of_row record.
Proof.
  unfold candidates, get_words. destruct (words conn) as [table|]; simpl.
  - intros Hw. exists table.
    destruct (List.filter _ table) as [|r rs] eqn:Hexact.
    + destruct (_ && _); simpl in Hw; [by apply elem_of_nil in Hw|].
      apply list_elem_of_fmap in Hw as (record & -> & Hrecord).
      exists record. split_and!; try done.
      apply list_elem_of_In, filter_In in Hrecord as [Hrecord _].
      by apply list_elem_of_In.
    + change (w ∈ map word_of_row (r :: rs)) in Hw.
      apply list_elem_of_fmap in Hw as (record & -> & Hrecord).
      exists record. split_and!; try done.
      rewrite <- Hexact in Hrecord.
      apply list_elem_of_In, filter_In in Hrecord as [Hrecord _].
      by apply list_elem_of_In.
  - by intros ?%elem_of_nil.
Qed.

(** C2 as amended. Matching never raises. Its result is that of the first
    form, among the headword forms in their order followed by the reading
    forms in theirs, that has an accepted candidate; the forms after it
    play no part. The candidate accepted for a form is the first candidate
    of the store, in the order returned, whose headword equals the query,
    and only when there is none the first whose phonetic field, cut at
    every space character (U+0020), has the query as a whole token; a
    missing or empty phonetic field has no token. The headword compared is
    not the one stored: it is the headword of the candidate's record with
    the whitespace at both ends trimmed (the empty text for a missing
    headword), while the phonetic field is the stored one. When no form
    has an accepted candidate the result is [None], not an exception. *)
Theorem matching_order (conn : Connection) (kanji_elements reading_elements : list Element) :
  (∀ query ws, filter_word query ws = accepted query ws)
  ∧ value (find_relevant_word conn kanji_elements reading_elements) =
    Return (first_accepted conn (map text kanji_elements ++ map text reading_elements))
  ∧ (∀ tried form rest w,
       map text kanji_elements ++ map text reading_elements = tried ++ form :: rest →
       Forall (fun q => accepted q (candidates conn q) = None) tried →
       accepted form (candidates conn form) = Some w →
       value (find_relevant_word conn kanji_elements reading_elements) = Return (Some w))
  ∧ (Forall (fun q => accepted q (candidates conn q) = None)
            (map text kanji_elements ++ map text reading_elements) →
     value (find_relevant_word conn kanji_elements reading_elements) = Return None)
  ∧ (∀ query w,
       w ∈ candidates conn query →
       ∃ table record,
         words conn = Some table ∧ record ∈ table ∧ w = word_of_row record
         ∧ Word.word w = strip (default [] (r_word record))
         ∧ Word.phonetic w = r_phonetic record
         ∧ (exact_match query w ↔ query = Some (strip (default [] (r_word record))))
         ∧ (token_match query w ↔
            ∃ q p, query = Some q ∧ r_phonetic record = Some p ∧ p ≠ [] ∧ q ∈ split SPACE p)).
Proof.
  pose proof (find_relevant_word_value conn kanji_elements reading_elements) as Hvalue.
  assert (Hnone : ∀ forms, Forall (fun q => accepted q (candidates conn q) = None) forms →
                           first_accepted conn forms = None).
  { induction 1 as [|q forms Hq _ IH]; [done|]. by rewrite first_accepted_cons, Hq. }
  split_and!.
  - apply filter_word_accepted.
  - exact Hvalue.
  - intros tried form rest w Hforms Htried Hform.
    rewrite Hvalue, Hforms, first_accepted_app, (Hnone _ Htried), first_accepted_cons.
    by rewrite Hform.
  - intros Hall. by rewrite Hvalue, (Hnone _ Hall).
  - intros query w Hw.
    apply candidates_from_table in Hw as (table & record & Htable & Hrecord & ->).
    exists table, record.
    assert (Hword : Word.word (word_of_row record) = strip (default [] (r_word record))).
    { unfold word_of_row. simpl. by destruct (r_word record) as [[|c word]|]. }
    split_and!; try done.
    + unfold exact_match. by rewrite Hword.
    + unfold token_match, tokens.
      change (Word.phonetic (word_of_row record)) with (r_phonetic record).
      destruct query as [q|]; [|split; [done|by intros (q & p & ? & _)]].
      destruct (r_phonetic record) as [[|c p]|].
      * split; [by intros ?%elem_of_nil|]. by intros (q' & p' & _ & [= <-] & ? & _).
      * split; [intros Hq; by exists q, (c :: p)|].
        by intros (q' & p' & [= <-] & [= <-] & _ & Hq).
      * split; [by intros ?%elem_of_nil|]. by intros (q' & p' & _ & ? & _).
Qed.

(** ** C3: the gloss text of the meaning-sense block *)

Lemma accepted_elem (query : option pystr) (ws : list Word.t) (w : Word.t) :
  accepted query ws = Some w → w ∈ ws.
Proof.
  unfold accepted. intros Hw.
  destruct (list_find (exact_match query) ws) as [[i w']|] eqn:Hexact.
  - injection Hw as ->. apply list_find_Some in Hexact as (Hi & _).
    by apply list_elem_of_lookup_2 in Hi.
  - destruct (list_find (token_match query) ws) as [[i w']|] eqn:Htoken; [|done].
    injection Hw as ->. apply list_find_Some in Htoken as (Hi & _).
    by apply list_elem_of_lookup_2 in Hi.
Qed.

Lemma first_accepted_from_table (conn : Connection) (forms : list (option pystr)) (w : Word.t) :
  first_accepted conn forms = Some w →
  ∃ table record, words conn = Some table ∧ record ∈ table ∧ w = word_of_row record.
Proof.
  induction forms as [|q forms IH]; [done|].
  rewrite first_accepted_cons.
  destruct (accepted q (candidates conn q)) as [w'|] eqn:Hq; [|done].
  intros [= ->]. eapply candidates_from_table, accepted_elem, Hq.
Qed.

Lemma existsb_vietnamese (clause : pystr) :
  existsb Word.vietnamese clause = true ↔ vietnamese_script clause.
Proof.
  unfold vietnamese_script. rewrite existsb_exists, Exists_exists.
  unfold Word.vietnamese.
  split; intros (c & Hc & Hband); exists c.
  - apply list_elem_of_In in Hc. split; [done|lia].
  - apply list_elem_of_In in Hc. split; [done|lia].
Qed.

Lemma filter_vietnamese (meanings : list pystr) :
  List.filter (existsb Word.vietnamese) meanings = filter vietnamese_script meanings.
Proof.
  induction meanings as [|m meanings IH]; [done|].
  simpl. rewrite filter_cons, IH.
  pose proof (existsb_vietnamese m) as Hm.
  destruct (existsb Word.vietnamese m); case_decide as Hv; try done.
  - destruct Hv. by apply Hm.
  - by apply Hm in Hv.
Qed.

Lemma _process_mean_gloss_text (mean : pystr) :
  Word._process_mean mean = gloss_text mean.
Proof.
  unfold Word._process_mean, gloss_text, clauses. cbv zeta.
  rewrite filter_vietnamese. by destruct (filter vietnamese_script _).
Qed.

Lemma word_of_row_mean (record : WordRow) :
  Word.mean (word_of_row record) = gloss_text (default [] (r_mean record)).
Proof.
  unfold word_of_row. simpl. destruct (r_mean record) as [[|c m]|]; simpl; try done.
  apply _process_mean_gloss_text.
Qed.

(** C3. A word that matching returns comes from a record of the store.
    With the record's meaning text cut at every semicolon and each piece
    trimmed, the gloss text is the pieces that have a character in
    U+00C0..U+1EF9 joined with "; ", or the meaning text as it is when no
    piece has one (the empty text for a record without meaning text). The
    meaning-sense block, whose gloss is tagged "vi" and holds this text, is
    the first synthesised block when the text is not empty, and no
    meaning-sense block is synthesised when it is empty. *)
Theorem meaning_gloss (conn : Connection) (kanji_elements reading_elements : list Element)
    (kanjis : list Kanji.t) (w : Word.t) :
  value (find_relevant_word conn kanji_elements reading_elements) = Return (Some w) →
  ∃ table record,
    words conn = Some table ∧ record ∈ table ∧ w = word_of_row record
    ∧ let meaning := default [] (r_mean record) in
      let qualifying := filter vietnamese_script (map strip (split SEMICOLON meaning)) in
      let gloss := if decide (qualifying = []) then meaning else join (py "; ") qualifying in
      StarDict.mean (make_stardict kanjis (Some w)) = gloss
      ∧ StarDict.to_xml_sense_elements (make_stardict kanjis (Some w)) =
        (if decide (gloss = []) then [] else [meaning_sense gloss (r_anki record)])
        ++ match variants kanjis with
           | [] => []
           | _ => [character_sense (join (py " | ") (variants kanjis)) (notes kanjis)]
           end.
Proof.
  intros Hw.
  rewrite find_relevant_word_value in Hw. injection Hw as Hw.
  apply first_accepted_from_table in Hw as (table & record & Htable & Hrecord & ->).
  exists table, record. split_and!; try done.
  cbv zeta. rewrite synthesised_blocks.
  change (StarDict.mean (make_stardict kanjis (Some (word_of_row record))))
    with (Word.mean (word_of_row record)).
  change (Word.anki (word_of_row record)) with (r_anki record).
  rewrite word_of_row_mean. unfold gloss_text, clauses.
  destruct (filter vietnamese_script _) as [|q qs] eqn:Hq.
  - rewrite decide_True by done. split; [done|]. f_equal.
    destruct (default [] (r_mean record)); by case_decide.
  - rewrite decide_False by done. split; [done|]. f_equal.
    destruct (join (py "; ") (q :: qs)); by case_decide.
Qed.

(** ** C6 and C9: the collection of character records *)

Lemma get_kanji_value (conn : Connection) (c : Z) :
  value (get_kanji conn [c]) = Return (character_record conn c).
Proof.
  unfold get_kanji, character_record. destruct (kanji conn) as [table|]; [|done].
  induction table as [|r table IH]; [done|].
  simpl. unfold sql_eq at 1.
  destruct (r_kanji r) as [key|] eqn:Hkey.
  - case_bool_decide as Hc; case_decide as Hc'; simplify_eq; try done.
    rewrite IH. by destruct (list_find _ table) as [[i r']|].
  - rewrite decide_False by done.
    rewrite IH. by destruct (list_find _ table) as [[i r']|].
Qed.

Lemma character_record_key (conn : Connection) (c : Z) (k : Kanji.t) :
  character_record conn c = Some k → Kanji.kanji k = Some [c].
Proof.
  unfold character_record. destruct (kanji conn) as [table|]; [|done].
  destruct (list_find _ table) as [[i r]|] eqn:Hfind; [|done].
  intros [= <-]. by apply list_find_Some in Hfind as (_ & Hr & _).
Qed.

Lemma get_kanji_from_chars_value (conn : Connection) (chars : pystr) (kanjis : list Kanji.t) :
  value (get_kanji_from_chars conn chars kanjis) =
  Return (kanjis ++ omap (character_record conn) (filter (fun c => 19968 ≤ c ≤ 40959) chars)).
Proof.
  revert kanjis. induction chars as [|c chars IH]; intros kanjis.
  - simpl. by rewrite app_nil_r.
  - rewrite filter_cons. cbn [get_kanji_from_chars]. unfold ideographic.
    destruct ((19968 <=? c) && (c <=? 40959)) eqn:Hc.
    + rewrite decide_True by lia.
      rewrite value_bind, get_kanji_value. simpl.
      destruct (character_record conn c) as [k|]; rewrite IH; [|done].
      by rewrite <- app_assoc.
    + rewrite decide_False by lia. apply IH.
Qed.

Lemma add_unseen_unseen (found : list Kanji.t) (seen : gset (option pystr)) (kanjis : list Kanji.t) :
  add_unseen found seen kanjis =
  (list_to_set (map Kanji.kanji found) ∪ seen, kanjis ++ unseen seen found).
Proof.
  revert seen kanjis. induction found as [|k found IH]; intros seen kanjis; simpl.
  - rewrite app_nil_r. f_equal. set_solver.
  - case_bool_decide as Hk.
    + rewrite decide_False by done. rewrite IH, <- app_assoc. f_equal. set_solver.
    + rewrite decide_True by done. rewrite IH. f_equal. set_solver.
Qed.

Lemma unseen_app (seen : gset (option pystr)) (found1 found2 : list Kanji.t) :
  unseen seen (found1 ++ found2) =
  unseen seen found1 ++ unseen (list_to_set (map Kanji.kanji found1) ∪ seen) found2.
Proof.
  revert seen. induction found1 as [|k found1 IH]; intros seen; simpl.
  - f_equal. set_solver.
  - case_decide as Hk.
    + rewrite IH. do 2 f_equal. set_solver.
    + rewrite IH. simpl. do 3 f_equal. set_solver.
Qed.

Lemma collect_from_value (conn : Connection) (kanji_elements : list Element)
    (forms : list pystr) (seen : gset (option pystr)) (kanjis : list Kanji.t) :
  map text kanji_elements = map Some forms →
  value (collect_from conn kanji_elements seen kanjis) =
  Return (kanjis ++ unseen seen (omap (character_record conn) (ideographs forms))).
Proof.
  revert forms seen kanjis.
  induction kanji_elements as [|k_ele rest IH]; intros forms seen kanjis Htexts.
  - destruct forms; [|done]. simpl. by rewrite app_nil_r.
  - destruct forms as [|form forms]; [done|].
    injection Htexts as Htext Htexts.
    simpl. rewrite Htext. simpl.
    rewrite value_bind, get_kanji_from_chars_value. simpl.
    rewrite add_unseen_unseen, (IH forms) by done.
    unfold ideographs. simpl. rewrite filter_app, omap_app, unseen_app.
    by rewrite <- app_assoc.
Qed.

Lemma first_occurrences_filter (P : Z → Prop) `{!∀ c, Decision (P c)} (l : list Z) :
  first_occurrences (filter P l) = filter P (first_occurrences l).
Proof.
  induction l as [|c l IH]; [done|].
  simpl. rewrite !filter_cons. case_decide as Hc; simpl.
  - rewrite IH, !list_filter_filter. f_equal. apply list_filter_iff. tauto.
  - rewrite IH, list_filter_filter. apply list_filter_iff.
    intros d. split; [|tauto]. intros Hd. split; [done|]. by intros ->.
Qed.

Lemma omap_filter_none (conn : Connection) (c : Z) (l : list Z) :
  character_record conn c = None →
  omap (character_record conn) (filter (fun d => d ≠ c) l) = omap (character_record conn) l.
Proof.
  intros Hc. induction l as [|d l IH]; [done|].
  rewrite filter_cons. case_decide as Hd; simpl.
  - destruct (character_record conn d); [f_equal|]; exact IH.
  - subst d. rewrite Hc. exact IH.
Qed.

Lemma unseen_records (conn : Connection) (seen : gset (option pystr)) (chars : list Z) :
  unseen seen (omap (character_record conn) chars) =
  omap (character_record conn)
       (first_occurrences (filter (fun c => Some [c] ∉ seen) chars)).
Proof.
  revert seen. induction chars as [|c chars IH]; intros seen; [done|].
  rewrite filter_cons. simpl.
  destruct (character_record conn c) as [k|] eqn:Hrecord.
  - pose proof (character_record_key _ _ _ Hrecord) as Hkey.
    simpl. rewrite Hkey.
    case_decide as Hseen.
    + rewrite decide_False by (by intros ?). apply IH.
    + rewrite decide_True by done. simpl. rewrite Hrecord. f_equal.
      rewrite IH, !first_occurrences_filter, list_filter_filter.
      f_equal. apply list_filter_iff. intros d.
      rewrite not_elem_of_union, not_elem_of_singleton. naive_solver.
  - case_decide as Hseen.
    + simpl. rewrite Hrecord, omap_filter_none by done. apply IH.
    + apply IH.
Qed.

Lemma first_occurrences_elem (l : list Z) (c : Z) :
  c ∈ first_occurrences l ↔ c ∈ l.
Proof.
  induction l as [|d l IH]; [done|].
  simpl. rewrite !elem_of_cons, list_elem_of_filter, IH.
  destruct (decide (c = d)); naive_solver.
Qed.

Lemma first_occurrences_NoDup (l : list Z) : NoDup (first_occurrences l).
Proof.
  induction l as [|d l IH]; simpl; [constructor|].
  constructor.
  - rewrite list_elem_of_filter. naive_solver.
  - by apply NoDup_filter.
Qed.

Lemma first_occurrences_sublist (l : list Z) : first_occurrences l `sublist_of` l.
Proof.
  induction l as [|d l IH]; simpl; [done|].
  apply sublist_skip. etrans; [apply sublist_filter|done].
Qed.

Lemma filter_all {A} (P : A → Prop) `{!∀ x, Decision (P x)} (l : list A) :
  Forall P l → filter P l = l.
Proof.
  induction 1 as [|x l Hx _ IH]; [done|]. by rewrite filter_cons_True, IH.
Qed.

Lemma filter_none {A} (P : A → Prop) `{!∀ x, Decision (P x)} (l : list A) :
  Forall (fun x => ¬ P x) l → filter P l = [].
Proof.
  induction 1 as [|x l Hx _ IH]; [done|]. by rewrite filter_cons_False.
Qed.

(** C6. With every headword form present, the collection returns the
    records of the distinct ideographic characters (U+4E00..U+9FFF) of the
    forms, one per character, in the order in which the characters first
    occur across the forms; a character that occurs again, in the same form
    or in a later one, adds nothing. The keys of the collected records are
    pairwise distinct, and the character-variant string joins their
    renderings in that order. *)
Theorem each_character_once (conn : Connection) (kanji_elements : list Element)
    (forms : list pystr) (word : option Word.t) :
  map text kanji_elements = map Some forms →
  let distinct := first_occurrences (ideographs forms) in
  let records := omap (character_record conn) distinct in
  value (collect_kanjis conn kanji_elements) = Return records
  ∧ NoDup distinct
  ∧ (∀ c, c ∈ distinct ↔ c ∈ ideographs forms)
  ∧ distinct `sublist_of` ideographs forms
  ∧ NoDup (map Kanji.kanji records)
  ∧ (∀ c, length (filter (fun k => Kanji.kanji k = Some [c]) records) ≤ 1)%nat
  ∧ StarDict.hanzi (make_stardict records word) = join (py " | ") (variants records).
Proof.
  intros Htexts distinct records.
  assert (Hkeys : ∀ chars, NoDup chars → NoDup (map Kanji.kanji (omap (character_record conn) chars))).
  { induction chars as [|c chars IH]; intros Hnodup; [constructor|].
    apply NoDup_cons in Hnodup as [Hc Hnodup]. simpl.
    destruct (character_record conn c) as [k|] eqn:Hrecord; [|by apply IH].
    simpl. constructor; [|by apply IH].
    rewrite (character_record_key _ _ _ Hrecord).
    intros Hin. apply list_elem_of_fmap in Hin as (k' & Hk' & Hin).
    apply list_elem_of_omap in Hin as (c' & Hc' & Hrecord').
    apply character_record_key in Hrecord'. rewrite Hrecord' in Hk'.
    by simplify_eq. }
  split_and!.
  - unfold collect_kanjis. rewrite (collect_from_value _ _ forms) by done.
    rewrite unseen_records. simpl. do 3 f_equal.
    apply filter_all, Forall_forall. intros c _. set_solver.
  - apply first_occurrences_NoDup.
  - intros c. apply first_occurrences_elem.
  - apply first_occurrences_sublist.
  - apply Hkeys, first_occurrences_NoDup.
  - intros c.
    pose proof (Hkeys distinct (first_occurrences_NoDup _)) as Hnodup.
    fold records in Hnodup. clearbody records. clear -Hnodup.
    induction records as [|k records IH]; [simpl; lia|].
    simpl in Hnodup. apply NoDup_cons in Hnodup as [Hk Hnodup].
    rewrite filter_cons. case_decide as Hc; [|by apply IH].
    simpl. rewrite filter_none; [simpl; lia|].
    apply Forall_forall. intros k' Hk' Hc'. apply Hk.
    apply list_elem_of_fmap. exists k'. by rewrite Hc, Hc'.
  - apply make_stardict_hanzi.
Qed.

Lemma get_kanji_from_word_value (conn : Connection) (word : option pystr) :
  (∃ kanjis, value (get_kanji_from_word conn word) = Return kanjis ∧ is_Some word)
  ∨ (value (get_kanji_from_word conn word) = Raise TypeError ∧ word = None).
Proof.
  destruct word as [chars|]; [left|by right].
  simpl. rewrite get_kanji_from_chars_value. eauto.
Qed.

Lemma collect_from_raises (conn : Connection) (kanji_elements : list Element)
    (seen : gset (option pystr)) (kanjis : list Kanji.t) :
  Exists (fun k_ele => text k_ele = None) kanji_elements →
  value (collect_from conn kanji_elements seen kanjis) = Raise TypeError.
Proof.
  intros Hnone. revert seen kanjis.
  induction kanji_elements as [|k_ele rest IH]; intros seen kanjis.
  - by apply Exists_nil in Hnone.
  - simpl. rewrite value_bind.
    destruct (get_kanji_from_word_value conn (text k_ele))
      as [(found & -> & [chars Hchars])|[-> _]]; [|done].
    apply Exists_cons in Hnone as [Hnone|Hnone]; [congruence|].
    destruct (add_unseen found seen kanjis) as [seen' kanjis'].
    by apply IH.
Qed.

Lemma process_element_raises (conn : Connection) (entry : Element) :
  Exists (fun keb => text keb = None) (ET.findall2 entry (py "k_ele") (py "keb")) →
  value (process_element conn entry) = Raise TypeError.
Proof.
  intros Hnone. unfold process_element, collect_kanjis.
  by rewrite value_bind, collect_from_raises.
Qed.

Lemma process_element_unchanged (conn : Connection) (entry : Element) (kanjis : list Kanji.t) :
  value (collect_kanjis conn (ET.findall2 entry (py "k_ele") (py "keb"))) = Return kanjis →
  variants kanjis = [] →
  value (find_relevant_word conn (ET.findall2 entry (py "k_ele") (py "keb"))
                            (ET.findall2 entry (py "r_ele") (py "reb"))) = Return None →
  value (process_element conn entry) = Return entry.
Proof.
  intros Hkanjis Hvariants Hword. unfold process_element.
  rewrite value_bind, Hkanjis, value_bind, Hword.
  simpl. by rewrite synthesised_blocks, Hvariants.
Qed.

Section OrchestratorProperties.
Variable fromstring : pystr → option Element.
Variable tostring : Element → pystr.

(** ** C9: a headword form without text *)

(** C9. When an entry has a headword-form element ([keb] under [k_ele])
    without text, [process_entry] raises [TypeError]: it returns no result,
    and in particular not the original form of the entry. *)
Theorem empty_headword_raises (conn : Connection) (entry_str : pystr) (entry : Element) :
  fromstring entry_str = Some entry →
  Exists (fun keb => text keb = None) (ET.findall2 entry (py "k_ele") (py "keb")) →
  value (process_entry fromstring tostring conn entry_str) = Raise TypeError
  ∧ ∀ result, value (process_entry fromstring tostring conn entry_str) ≠ Return result.
Proof.
  intros Hparse Hnone.
  assert (Hraise : value (process_entry fromstring tostring conn entry_str) = Raise TypeError).
  { unfold process_entry. rewrite Hparse, value_bind.
    by rewrite process_element_raises. }
  split; [done|]. intros result. by rewrite Hraise.
Qed.

(** ** C5: an entry without a match *)

(** C5 as amended. When matching finds no word for an entry and none of
    the character records collected for it has an alternate-script
    rendering, processing returns the entry as parsed, with no block added,
    and [process_entry] returns its serialisation. *)
Theorem no_match_no_rendering_unchanged (conn : Connection) (entry_str : pystr)
    (entry : Element) (kanjis : list Kanji.t) :
  fromstring entry_str = Some entry →
  value (find_relevant_word conn (ET.findall2 entry (py "k_ele") (py "keb"))
                            (ET.findall2 entry (py "r_ele") (py "reb"))) = Return None →
  value (collect_kanjis conn (ET.findall2 entry (py "k_ele") (py "keb"))) = Return kanjis →
  Forall (fun k => truthy (Kanji.hanzi k) = false) kanjis →
  value (process_element conn entry) = Return entry
  ∧ value (process_entry fromstring tostring conn entry_str) = Return (tostring entry).
Proof.
  intros Hparse Hword Hkanjis Hnone.
  pose proof (process_element_unchanged conn entry kanjis Hkanjis
                (variants_none kanjis Hnone) Hword) as Helement.
  split; [done|].
  unfold process_entry. by rewrite Hparse, value_bind, Helement.
Qed.

End OrchestratorProperties.

(** ** C8: merging chunk files *)

Lemma findall_filter (root : Element) (name : pystr) :
  ET.findall root name = filter (fun c => tag c = name) (children root).
Proof.
  unfold ET.findall. induction (children root) as [|c cs IH]; [done|].
  simpl. rewrite filter_cons, IH. unfold ET.has_tag.
  by case_bool_decide; case_decide.
Qed.

Lemma merge_files_from (files : list xml_file) (merged_root : Element) :
  Forall parsed_or_malformed files →
  merge_files files merged_root =
  (Return (ET.with_children merged_root
             (children merged_root ++ concat (map chunk_entries files))),
   concat (map chunk_errors files)).
Proof.
  intros Hfiles. revert merged_root.
  induction Hfiles as [|[path [root|e]] files Hfile _ IH]; intros merged_root.
  - simpl. rewrite app_nil_r. by destruct merged_root.
  - simpl. rewrite IH, fold_append. unfold chunk_entries at 2. simpl.
    rewrite findall_filter. unfold ET.with_children. simpl. by rewrite <- app_assoc.
  - unfold parsed_or_malformed in Hfile. simpl in Hfile. subst e.
    cbn [merge_files]. unfold mbind, Py_bind, print. rewrite IH. reflexivity.
Qed.

Lemma merge_files_skips (before after : list xml_file) (path : pystr) (merged_root : Element) :
  value (merge_files (before ++ (path, Raise ParseError) :: after) merged_root) =
  value (merge_files (before ++ after) merged_root).
Proof.
  revert merged_root. induction before as [|[path' [root|e]] before IH]; intros merged_root.
  - reflexivity.
  - simpl. apply IH.
  - destruct e; try reflexivity.
    cbn [app merge_files]. unfold mbind, Py_bind, print, value. simpl. apply IH.
Qed.

Lemma merge_files_prints (before after : list xml_file) (path : pystr) (merged_root : Element) :
  Forall parsed_or_malformed before →
  ErrorParsingFile path ∈
    printed (merge_files (before ++ (path, Raise ParseError) :: after) merged_root).
Proof.
  intros Hbefore. revert merged_root.
  induction Hbefore as [|[path' [root|e]] before Hfile _ IH]; intros merged_root.
  - cbn [app merge_files]. unfold mbind, Py_bind, print, printed. simpl. by left.
  - simpl. apply IH.
  - unfold parsed_or_malformed in Hfile. simpl in Hfile. subst e.
    cbn [app merge_files]. unfold mbind, Py_bind, print, printed. simpl.
    right. apply IH.
Qed.

Lemma merge_files_aborts (before after : list xml_file) (path : pystr) (e : exn)
    (merged_root : Element) :
  Forall parsed_or_malformed before → e ≠ ParseError →
  merge_files (before ++ (path, Raise e) :: after) merged_root =
  (Raise e, concat (map chunk_errors before)).
Proof.
  intros Hbefore He. revert merged_root.
  induction Hbefore as [|[path' [root|e']] before Hfile _ IH]; intros merged_root.
  - by destruct e.
  - simpl. apply IH.
  - unfold parsed_or_malformed in Hfile. simpl in Hfile. subst e'.
    cbn [app merge_files]. unfold mbind, Py_bind, print. rewrite IH. reflexivity.
Qed.

(** C8, as amended. The merged corpus is a [JMdict] root whose children
    are the entries of the files that parse, file after file in the order
    of discovery and within a file in the order of its entries, whenever
    every file of the folder either parses or is refused with
    [ET.ParseError]. A file refused with [ET.ParseError] is skipped: it
    contributes no entry, the outcome is the same as if the file were
    absent, and its error line is printed once the loop reaches it. Any
    other exception of [ET.parse] is not caught: at the first such file the
    merge raises that exception, after the error lines of the files skipped
    before, and returns no corpus to write. *)
Theorem merge_concatenates (files : list xml_file) :
  (Forall parsed_or_malformed files →
   merge_xml_files files =
     (Return (mkElement (py "JMdict") [] None None (concat (map chunk_entries files))),
      concat (map chunk_errors files)))
  ∧ (∀ before path after,
       files = before ++ (path, Raise ParseError) :: after →
       value (merge_xml_files files) = value (merge_xml_files (before ++ after))
       ∧ (Forall parsed_or_malformed before →
          ErrorParsingFile path ∈ printed (merge_xml_files files)))
  ∧ (∀ before path e after,
       files = before ++ (path, Raise e) :: after →
       Forall parsed_or_malformed before →
       e ≠ ParseError →
       merge_xml_files files = (Raise e, concat (map chunk_errors before))
       ∧ ∀ merged_root, value (merge_xml_files files) ≠ Return merged_root).
Proof.
  split_and!.
  - intros Hfiles. unfold merge_xml_files. by rewrite merge_files_from.
  - intros before path after ->. split.
    + apply merge_files_skips.
    + intros Hbefore. by apply merge_files_prints.
  - intros before path e after -> Hbefore He. unfold merge_xml_files.
    rewrite merge_files_aborts by done. by split.
Qed.

(** ** The worker pool *)

Lemma pool_results_no_task {A B} (func : A → Py B) (tasks : list A)
    (completion : list nat) (i : nat) :
  tasks !! i = None → pool_results func tasks completion !! i = None.
Proof.
  intros Hi. induction completion as [|j completion IH]; [done|].
  simpl. destruct (tasks !! j) as [task|] eqn:Htask; [|done].
  rewrite lookup_insert_ne; [done|]. intros ->. congruence.
Qed.

Lemma pool_results_lookup {A B} (func : A → Py B) (tasks : list A)
    (completion : list nat) (i : nat) :
  i ∈ completion →
  pool_results func tasks completion !! i = (value ∘ func) <$> tasks !! i.
Proof.
  destruct (tasks !! i) as [task|] eqn:Htask; [|intros _; by apply pool_results_no_task].
  induction completion as [|j completion IH]; [by intros ?%elem_of_nil|].
  intros Hi. simpl.
  destruct (decide (i = j)) as [->|Hne].
  - rewrite Htask. by rewrite lookup_insert_eq.
  - apply elem_of_cons in Hi as [?|Hi]; [done|].
    destruct (tasks !! j); [rewrite lookup_insert_ne by done|]; by apply IH.
Qed.

(** Whatever the order in which the workers finish, the iterator hands out
    the results in the order of the tasks. *)
Lemma pool_imap_any_order {A B} (func : A → Py B) (tasks : list A) (completion : list nat) :
  completion ≡ₚ seq 0 (length tasks) →
  pool_imap func tasks completion = Some (map (value ∘ func) tasks).
Proof.
  intros Hperm. unfold pool_imap. apply mapM_Some.
  apply Forall2_same_length_lookup_2.
  - by rewrite length_seq, length_map.
  - intros i j result Hj Hresult.
    apply lookup_seq in Hj as [-> Hi]. simpl.
    rewrite pool_results_lookup.
    + by rewrite <- list_lookup_fmap.
    + rewrite Hperm. apply elem_of_seq. lia.
Qed.

Lemma collect_results_returns {B} (results : list (outcome B)) (bs : list B) :
  results = map Return bs → collect_results results = mret bs.
Proof.
  intros ->. induction bs as [|b bs IH]; [done|].
  simpl. by rewrite IH, bind_ret_l.
Qed.

Lemma collect_results_inv {B} (results : list (outcome B)) (bs : list B) :
  value (collect_results results) = Return bs → results = map Return bs.
Proof.
  revert bs. induction results as [|[b|e] results IH]; intros bs; simpl.
  - by intros [= <-].
  - rewrite value_bind.
    destruct (value (collect_results results)) as [bs'|e] eqn:Hrest; [|done].
    intros [= <-]. simpl. by rewrite (IH bs').
  - done.
Qed.

(** ** The orchestrator *)

Lemma descendants_children (root : Element) :
  ET.descendants root = flat_map (fun c => c :: ET.descendants c) (children root).
Proof.
  destruct root as [t a tx tl cs]. simpl.
  induction cs as [|c cs IH]; [done|]. simpl. by rewrite IH.
Qed.

Lemma corpus_entries (root : Element) :
  is_corpus root = true → ET.findall_desc root (py "entry") = children root.
Proof.
  unfold is_corpus, ET.findall_desc. rewrite descendants_children.
  induction (children root) as [|c cs IH]; [done|].
  simpl. intros Hcorpus.
  apply andb_prop in Hcorpus as [Hc Hcs]. apply andb_prop in Hc as [Htag Hinner].
  rewrite Htag. f_equal. rewrite List.filter_app, (IH Hcs).
  assert (Hnone : List.filter (ET.has_tag (py "entry")) (ET.descendants c) = []).
  { clear -Hinner. induction (ET.descendants c) as [|d ds IH]; [done|].
    simpl in *. apply andb_prop in Hinner as [Hd Hds].
    apply negb_true_iff in Hd. rewrite Hd. by apply IH. }
  by rewrite Hnone.
Qed.

Section Run.
Variable fromstring : pystr → option Element.
Variable tostring : Element → pystr.

Lemma parse_failures_elem (i j : nat) (strs : list pystr) :
  ErrorParsingEntry j ∈ parse_failures fromstring i strs ↔
  (i ≤ j)%nat ∧ ∃ s, strs !! (j - i)%nat = Some s ∧ fromstring s = None.
Proof.
  revert i. induction strs as [|s strs IH]; intros i.
  - simpl. split; [by intros ?%elem_of_nil|]. by intros (_ & s & ? & _).
  - assert (Hrest : ErrorParsingEntry j ∈ parse_failures fromstring (S i) strs ↔
              (i < j)%nat ∧ ∃ s', (s :: strs) !! (j - i)%nat = Some s' ∧ fromstring s' = None).
    { rewrite IH. split.
      - intros (Hij & s' & Hs' & Hfail). split; [lia|]. exists s'. split; [|done].
        replace (j - i)%nat with (S (j - S i)) by lia. done.
      - intros (Hij & s' & Hs' & Hfail). split; [lia|]. exists s'. split; [|done].
        replace (j - i)%nat with (S (j - S i)) in Hs' by lia. done. }
    simpl parse_failures. destruct (fromstring s) eqn:Hs.
    + rewrite Hrest. split.
      * intros (Hij & Hex). split; [lia|done].
      * intros (Hij & s' & Hs' & Hfail). split; [|by exists s'].
        destruct (decide (i = j)) as [->|]; [|lia].
        rewrite Nat.sub_diag in Hs'. simpl in Hs'. congruence.
    + rewrite elem_of_cons, Hrest. split.
      * intros [[= ->]|(Hij & Hex)].
        -- split; [lia|]. exists s. by rewrite Nat.sub_diag.
        -- split; [lia|done].
      * intros (Hij & s' & Hs' & Hfail).
        destruct (decide (i = j)) as [->|]; [by left|right].
        split; [lia|by exists s'].
Qed.

(** The update loop on a tree that has a child at every position it
    assigns. *)
Lemma update_tree_spec (entries : list Element) (strs : list pystr) (root : Element) (i : nat) :
  (i + length strs ≤ length (children root))%nat →
  (i + length strs ≤ length entries)%nat →
  ∃ out,
    update_tree fromstring entries i strs root = (Return out, parse_failures fromstring i strs)
    ∧ tag out = tag root ∧ attrib out = attrib root
    ∧ text out = text root ∧ tail out = tail root
    ∧ length (children out) = length (children root)
    ∧ ∀ j, children out !! j =
           if decide (i ≤ j < i + length strs)%nat
           then s ← strs !! (j - i)%nat;
                original ← entries !! j;
                Some (default original (fromstring s))
           else children root !! j.
Proof.
  revert root i. induction strs as [|s strs IH]; intros root i Hroot Hentries.
  - exists root. split_and!; try done.
    intros j. rewrite decide_False; [done|simpl; lia].
  - simpl in Hroot, Hentries.
    destruct (lookup_lt_is_Some_2 entries i) as [original Horiginal]; [lia|].
    destruct (IH (ET.with_children root
                    (<[i := default original (fromstring s)]> (children root))) (S i))
      as (out & Hout & Htag & Hattrib & Htext & Htail & Hlen & Hchildren).
    { simpl. rewrite length_insert. lia. }
    { lia. }
    exists out. split_and!.
    + cbn [update_tree parse_failures]. unfold ET.setitem.
      rewrite Horiginal. rewrite bool_decide_true by lia.
      destruct (fromstring s) as [entry|] eqn:Hs; simpl in Hout.
      * rewrite bind_ret_l. exact Hout.
      * unfold mbind, Py_bind, print, mret, Py_ret. simpl. rewrite Hout. reflexivity.
    + by rewrite Htag.
    + by rewrite Hattrib.
    + by rewrite Htext.
    + by rewrite Htail.
    + rewrite Hlen. simpl. by rewrite length_insert.
    + intros j. rewrite Hchildren. simpl.
      destruct (decide (j = i)) as [->|Hne].
      * rewrite decide_False by lia. rewrite decide_True by lia.
        rewrite Nat.sub_diag. simpl. rewrite Horiginal. simpl.
        by rewrite list_lookup_insert_eq by lia.
      * rewrite list_lookup_insert_ne by done.
        destruct (decide (S i ≤ j < S i + length strs)%nat) as [Hin|Hout'].
        -- rewrite !decide_True by lia.
           replace (j - i)%nat with (S (j - S i)) by lia. done.
        -- rewrite !decide_False by lia. done.
Qed.

(** The run on a corpus, with every task completed: the results are
    collected in the order of the entries and the tree is updated from
    them. *)
Lemma run_corpus (conn : Connection) (root : Element) (completion : list nat) :
  is_corpus root = true →
  completion ≡ₚ seq 0 (length (children root)) →
  update_jmdict_with_vietnamese_parallel fromstring tostring conn root completion =
  Some (modified_entry_strs ←
          collect_results
            (map (fun entry => value (process_entry fromstring tostring conn (tostring entry)))
                 (children root));
        update_tree fromstring (children root) 0%nat modified_entry_strs root).
Proof.
  intros Hcorpus Hperm. unfold update_jmdict_with_vietnamese_parallel.
  rewrite (corpus_entries root Hcorpus).
  rewrite pool_imap_any_order by (by rewrite length_map).
  simpl. by rewrite <- list_fmap_compose.
Qed.

Lemma all_return {A B} (f : A → outcome B) (l : list A) :
  (∀ x, x ∈ l → ∃ b, f x = Return b) → ∃ bs, map f l = map Return bs.
Proof.
  induction l as [|x l IH]; intros Hall.
  - by exists [].
  - destruct (Hall x) as [b Hb]; [by left|].
    destruct IH as [bs Hbs]; [intros y Hy; apply Hall; by right|].
    exists (b :: bs). simpl. by rewrite Hb, Hbs.
Qed.

(** The run on a corpus whose workers all return. *)
Lemma run_returns (conn : Connection) (root : Element) (completion : list nat)
    (strs : list pystr) :
  is_corpus root = true →
  completion ≡ₚ seq 0 (length (children root)) →
  map (fun entry => value (process_entry fromstring tostring conn (tostring entry)))
      (children root) = map Return strs →
  ∃ out,
    update_jmdict_with_vietnamese_parallel fromstring tostring conn root completion =
      Some (Return out, parse_failures fromstring 0 strs)
    ∧ tag out = tag root ∧ attrib out = attrib root
    ∧ text out = text root ∧ tail out = tail root
    ∧ length (children out) = length (children root)
    ∧ ∀ i entry modified_str,
        children root !! i = Some entry →
        strs !! i = Some modified_str →
        children out !! i = Some (default entry (fromstring modified_str)).
Proof.
  intros Hcorpus Hperm Hstrs.
  assert (Hlen : length strs = length (children root)).
  { apply (f_equal length) in Hstrs. rewrite !length_map in Hstrs. done. }
  destruct (update_tree_spec (children root) strs root 0)
    as (out & Hout & Htag & Hattrib & Htext & Htail & Hlength & Hchildren); [lia..|].
  exists out. split_and!; try done.
  - rewrite run_corpus by done. rewrite Hstrs.
    rewrite (collect_results_returns _ strs) by done.
    f_equal. rewrite bind_ret_l. exact Hout.
  - intros i entry modified_str Hentry Hmodified.
    rewrite Hchildren. apply lookup_lt_Some in Hentry as Hi.
    rewrite decide_True by lia. rewrite Nat.sub_0_r, Hmodified. simpl.
    by rewrite Hentry.
Qed.

(** ** C1: the output keeps the positions of the entries *)

(** C1 as amended. For a corpus whose root holds exactly its entries, and
    whatever the order in which the workers finish, the run gives an output
    whenever every worker returns; and when it gives an output, the output
    root has as many children as the input root, and the child at each
    position is the parsed result of the entry at that position, or that
    entry itself when the result does not parse. *)
Theorem output_keeps_positions (conn : Connection) (root : Element) (completion : list nat) :
  is_corpus root = true →
  completion ≡ₚ seq 0 (length (children root)) →
  ∃ run,
    update_jmdict_with_vietnamese_parallel fromstring tostring conn root completion = Some run
    ∧ ((∀ entry, entry ∈ children root →
          ∃ s, value (process_entry fromstring tostring conn (tostring entry)) = Return s) →
       ∃ out, value run = Return out)
    ∧ ∀ out, value run = Return out →
        tag out = tag root ∧ attrib out = attrib root
        ∧ text out = text root ∧ tail out = tail root
        ∧ length (children out) = length (children root)
        ∧ ∀ i entry, children root !! i = Some entry →
            ∃ modified_str,
              value (process_entry fromstring tostring conn (tostring entry)) = Return modified_str
              ∧ children out !! i = Some (default entry (fromstring modified_str)).
Proof.
  intros Hcorpus Hperm.
  eexists. split; [by apply run_corpus|]. split.
  - intros Hall. apply all_return in Hall as [strs Hstrs].
    destruct (run_returns conn root completion strs) as (out & Hrun & _); [done..|].
    rewrite run_corpus in Hrun by done. injection Hrun as Hrun.
    exists out. by rewrite Hrun.
  - intros out Hout. rewrite value_bind in Hout.
    destruct (value (collect_results _)) as [strs|e] eqn:Hcollect; [|done].
    apply collect_results_inv in Hcollect.
    destruct (run_returns conn root completion strs)
      as (out' & Hrun & Htag & Hattrib & Htext & Htail & Hlength & Hchildren); [done..|].
    rewrite run_corpus in Hrun by done. injection Hrun as Hrun.
    rewrite Hcollect in Hrun.
    rewrite (collect_results_returns _ strs) in Hrun by done.
    rewrite bind_ret_l in Hrun. rewrite Hrun in Hout. injection Hout as <-.
    split_and!; try done.
    intros i entry Hentry.
    assert (Hresult : map (fun entry : Element =>
                value (process_entry fromstring tostring conn (tostring entry)))
              (children root) !! i = Return <$> strs !! i).
    { by rewrite Hcollect, list_lookup_fmap. }
    rewrite list_lookup_fmap, Hentry in Hresult. simpl in Hresult.
    destruct (strs !! i) as [modified_str|] eqn:Hmodified; [|done].
    injection Hresult as Hresult.
    exists modified_str. split; [done|]. by eapply Hchildren.
Qed.

(** ** C4: a result that does not parse *)

(** C4 as amended. For a corpus whose root holds exactly its entries and
    whose workers all return, the run does not abort: it gives an output in
    which every entry whose returned form fails to parse is replaced by
    the original entry at the same position, with a warning printed for
    that position, while every other position holds the parsed result and
    has no warning. *)
Theorem unparsable_result_falls_back (conn : Connection) (root : Element)
    (completion : list nat) :
  is_corpus root = true →
  completion ≡ₚ seq 0 (length (children root)) →
  (∀ entry, entry ∈ children root →
     ∃ s, value (process_entry fromstring tostring conn (tostring entry)) = Return s) →
  ∃ out warnings,
    update_jmdict_with_vietnamese_parallel fromstring tostring conn root completion =
      Some (Return out, warnings)
    ∧ length (children out) = length (children root)
    ∧ ∀ i entry modified_str,
        children root !! i = Some entry →
        value (process_entry fromstring tostring conn (tostring entry)) = Return modified_str →
        match fromstring modified_str with
        | None => children out !! i = Some entry ∧ ErrorParsingEntry i ∈ warnings
        | Some parsed => children out !! i = Some parsed ∧ ErrorParsingEntry i ∉ warnings
        end.
Proof.
  intros Hcorpus Hperm Hall. apply all_return in Hall as [strs Hstrs].
  destruct (run_returns conn root completion strs)
    as (out & Hrun & _ & _ & _ & _ & Hlength & Hchildren); [done..|].
  exists out, (parse_failures fromstring 0 strs). split_and!; try done.
  intros i entry modified_str Hentry Hmodified.
  assert (Hresult : map (fun entry : Element =>
              value (process_entry fromstring tostring conn (tostring entry)))
            (children root) !! i = Return <$> strs !! i).
  { by rewrite Hstrs, list_lookup_fmap. }
  rewrite list_lookup_fmap, Hentry in Hresult. simpl in Hresult.
  rewrite Hmodified in Hresult.
  destruct (strs !! i) as [s|] eqn:Hs; [|done].
  injection Hresult as ->.
  pose proof (Hchildren i entry s Hentry Hs) as Hchild.
  pose proof (parse_failures_elem 0 i strs) as Hwarn.
  destruct (fromstring s) as [parsed|] eqn:Hparse; simpl in Hchild.
  - split; [done|]. rewrite Hwarn. intros (_ & s' & Hs' & Hfail).
    rewrite Nat.sub_0_r in Hs'. congruence.
  - split; [done|]. apply Hwarn. split; [lia|]. exists s.
    by rewrite Nat.sub_0_r.
Qed.

End Run.

(** * The properties on the sample data *)

Import Sample.

(** What processing makes of the sample entries. *)
Example process_entry_nihongo :
  process_element conn entry_nihongo = (Return entry_nihongo_vi, []).
Proof. vm_compute. reflexivity. Qed.

Example process_entry_nichi :
  process_element conn entry_nichi = (Return entry_nichi_vi, []).
Proof. vm_compute. reflexivity. Qed.

(** ** C1 *)

(** The run of the three-entry corpus, the workers finishing in the order
    2, 0, 1. *)
Lemma output_keeps_positions_witness :
  is_corpus corpus = true
  ∧ [2; 0; 1]%nat ≡ₚ seq 0 (length (children corpus))
  ∧ ∃ run,
      update_jmdict_with_vietnamese_parallel fromstring xml_text conn corpus [2; 0; 1]%nat
      = Some run
      ∧ ((∀ entry, entry ∈ children corpus →
            ∃ s, value (process_entry fromstring xml_text conn (xml_text entry)) = Return s) →
         ∃ out, value run = Return out)
      ∧ ∀ out, value run = Return out →
          tag out = tag corpus ∧ attrib out = attrib corpus
          ∧ text out = text corpus ∧ tail out = tail corpus
          ∧ length (children out) = length (children corpus)
          ∧ ∀ i entry, children corpus !! i = Some entry →
              ∃ modified_str,
                value (process_entry fromstring xml_text conn (xml_text entry))
                = Return modified_str
                ∧ children out !! i = Some (default entry (fromstring modified_str)).
Proof.
  assert (Hperm : [2; 0; 1]%nat ≡ₚ seq 0 (length (children corpus))).
  { simpl. solve_Permutation. }
  split; [reflexivity|]. split; [exact Hperm|].
  apply (output_keeps_positions fromstring xml_text conn corpus [2; 0; 1]%nat);
    [reflexivity | exact Hperm].
Defined.

(** C1 as stated fails in two ways. A document whose root has a child that
    is no entry: the only entry is written over that child and stays where
    it was, so the output holds it twice. A corpus with an entry whose
    headword form is empty: the worker raises and the run gives no output
    at all. *)
Lemma output_positions_counterexample :
  (ET.findall_desc document_with_info (py "entry") = [entry_nichi]
   ∧ update_jmdict_with_vietnamese_parallel fromstring xml_text conn document_with_info [0%nat]
     = Some (Return (node "JMdict" [entry_nichi_vi; entry_nichi]), [])
   ∧ length (ET.findall_desc (node "JMdict" [entry_nichi_vi; entry_nichi]) (py "entry"))
     ≠ length (ET.findall_desc document_with_info (py "entry")))
  ∧ (is_corpus corpus_empty_keb = true
     ∧ update_jmdict_with_vietnamese_parallel fromstring xml_text conn corpus_empty_keb [0%nat]
       = Some (Raise TypeError, [])).
Proof.
  split_and!; try (vm_compute; reflexivity).
  vm_compute. discriminate.
Qed.

(** ** C2 *)

(** The headword form 日本 has no accepted candidate; the reading にほんご
    is a token of the phonetic field of the record of 日本語. *)
Lemma matching_order_witness :
  (∀ query ws, filter_word query ws = accepted query ws)
  ∧ value (find_relevant_word conn [keb [NICHI; HON]] [reb reading]) =
    Return (first_accepted conn (map text [keb [NICHI; HON]] ++ map text [reb reading]))
  ∧ (∀ tried form rest w,
       map text [keb [NICHI; HON]] ++ map text [reb reading] = tried ++ form :: rest →
       Forall (fun q => accepted q (candidates conn q) = None) tried →
       accepted form (candidates conn form) = Some w →
       value (find_relevant_word conn [keb [NICHI; HON]] [reb reading]) = Return (Some w))
  ∧ (Forall (fun q => accepted q (candidates conn q) = None)
            (map text [keb [NICHI; HON]] ++ map text [reb reading]) →
     value (find_relevant_word conn [keb [NICHI; HON]] [reb reading]) = Return None)
  ∧ (∀ query w,
       w ∈ candidates conn query →
       ∃ table record,
         words conn = Some table ∧ record ∈ table ∧ w = word_of_row record
         ∧ Word.word w = strip (default [] (r_word record))
         ∧ Word.phonetic w = r_phonetic record
         ∧ (exact_match query w ↔ query = Some (strip (default [] (r_word record))))
         ∧ (token_match query w ↔
            ∃ q p, query = Some q ∧ r_phonetic record = Some p ∧ p ≠ [] ∧ q ∈ split SPACE p)).
Proof. apply (matching_order conn [keb [NICHI; HON]] [reb reading]). Defined.

(** C2 as stated fails in three ways. For whitespace other than the space
    character: the only candidate for the reading にほんご has the
    phonetic field "にほんご<TAB>nihongo", of which the reading is a whole
    token when the field is split on whitespace; yet no candidate is
    accepted, because the code cuts the field at space characters only.
    For a stored headword with a space before it: the record with the
    headword " 日本語" is the candidate for the form " 日本語", equal to
    it character by character, and is not selected, because the headword
    compared is the trimmed one. For a stored headword with a space after
    it: the record with the headword "X " and the phonetic field "aXb" is
    selected for the form "X", though its stored headword is not the form
    and the form is no token of its phonetic field. *)
Lemma matching_counterexample :
  (candidates conn_tab (Some reading) = [word_of_row word_row_tab]
   ∧ r_word word_row_tab ≠ Some reading
   ∧ r_phonetic word_row_tab = Some (reading ++ [9] ++ py "nihongo")
   ∧ reading ∈ whitespace_tokens (reading ++ [9] ++ py "nihongo")
   ∧ split SPACE (reading ++ [9] ++ py "nihongo") = [reading ++ [9] ++ py "nihongo"]
   ∧ filter_word (Some reading) (candidates conn_tab (Some reading)) = None
   ∧ value (find_relevant_word conn_tab [] [reb reading]) = Return None)
  ∧ (candidates conn_padded (Some (SPACE :: nihongo)) = [word_of_row word_row_leading]
     ∧ r_word word_row_leading = Some (SPACE :: nihongo)
     ∧ Word.word (word_of_row word_row_leading) = nihongo
     ∧ filter_word (Some (SPACE :: nihongo)) (candidates conn_padded (Some (SPACE :: nihongo)))
       = None
     ∧ value (find_relevant_word conn_padded [keb (SPACE :: nihongo)] []) = Return None)
  ∧ (candidates conn_padded (Some (py "X")) = [word_of_row word_row_trailing]
     ∧ r_word word_row_trailing = Some (py "X ")
     ∧ r_word word_row_trailing ≠ Some (py "X")
     ∧ r_phonetic word_row_trailing = Some (py "aXb")
     ∧ py "X" ∉ whitespace_tokens (py "aXb")
     ∧ py "X" ∉ split SPACE (py "aXb")
     ∧ Word.word (word_of_row word_row_trailing) = py "X"
     ∧ value (find_relevant_word conn_padded [keb (py "X")] []) =
       Return (Some (word_of_row word_row_trailing))).
Proof.
  split_and!; try (vm_compute; reflexivity).
  - vm_compute. discriminate.
  - vm_compute. by left.
  - vm_compute. discriminate.
  - apply (bool_decide_unpack _). vm_compute. exact I.
  - apply (bool_decide_unpack _). vm_compute. exact I.
Qed.

Example reading_wins :
  value (find_relevant_word conn [keb [NICHI; HON]] [reb reading]) =
  Return (Some (word_of_row word_row)).
Proof. vm_compute. reflexivity. Qed.

(** ** C3 *)

Lemma meaning_gloss_witness :
  value (find_relevant_word conn [keb nihongo] [reb reading]) = Return (Some (word_of_row word_row))
  ∧ ∃ table record,
      words conn = Some table ∧ record ∈ table ∧ word_of_row word_row = word_of_row record
      ∧ let meaning := default [] (r_mean record) in
        let qualifying := filter vietnamese_script (map strip (split SEMICOLON meaning)) in
        let gloss := if decide (qualifying = []) then meaning else join (py "; ") qualifying in
        StarDict.mean (make_stardict [] (Some (word_of_row word_row))) = gloss
        ∧ StarDict.to_xml_sense_elements (make_stardict [] (Some (word_of_row word_row))) =
          (if decide (gloss = []) then [] else [meaning_sense gloss (r_anki record)])
          ++ match variants [] with
             | [] => []
             | _ => [character_sense (join (py " | ") (variants [])) (notes [])]
             end.
Proof.
  assert (Hword : value (find_relevant_word conn [keb nihongo] [reb reading]) =
                  Return (Some (word_of_row word_row))).
  { vm_compute. reflexivity. }
  split; [exact Hword|].
  apply (meaning_gloss conn [keb nihongo] [reb reading] [] (word_of_row word_row) Hword).
Defined.

Example gloss_of_sample_record :
  Word.mean (word_of_row word_row) = tieng_nhat.
Proof. vm_compute. reflexivity. Qed.

(** ** C4 *)

Lemma sample_workers_return :
  ∀ entry, entry ∈ children corpus →
    ∃ s, value (process_entry fromstring_strict xml_text conn (xml_text entry)) = Return s.
Proof.
  intros entry Hentry. simpl in Hentry.
  repeat (apply elem_of_cons in Hentry as [->|Hentry]);
    [eexists; vm_compute; reflexivity .. | by apply elem_of_nil in Hentry].
Defined.

(** The run of the three-entry corpus with a parser that rejects the
    returned form of the first entry: the first entry falls back to its
    original, the others are replaced by their parsed results. *)
Lemma unparsable_result_falls_back_witness :
  is_corpus corpus = true
  ∧ [1; 2; 0]%nat ≡ₚ seq 0 (length (children corpus))
  ∧ (∀ entry, entry ∈ children corpus →
       ∃ s, value (process_entry fromstring_strict xml_text conn (xml_text entry)) = Return s)
  ∧ ∃ out warnings,
      update_jmdict_with_vietnamese_parallel fromstring_strict xml_text conn corpus [1; 2; 0]%nat
      = Some (Return out, warnings)
      ∧ length (children out) = length (children corpus)
      ∧ ∀ i entry modified_str,
          children corpus !! i = Some entry →
          value (process_entry fromstring_strict xml_text conn (xml_text entry))
          = Return modified_str →
          match fromstring_strict modified_str with
          | None => children out !! i = Some entry ∧ ErrorParsingEntry i ∈ warnings
          | Some parsed => children out !! i = Some parsed ∧ ErrorParsingEntry i ∉ warnings
          end.
Proof.
  assert (Hperm : [1; 2; 0]%nat ≡ₚ seq 0 (length (children corpus))).
  { simpl. solve_Permutation. }
  split; [reflexivity|]. split; [exact Hperm|]. split; [exact sample_workers_return|].
  apply (unparsable_result_falls_back fromstring_strict xml_text conn corpus [1; 2; 0]%nat);
    [reflexivity | exact Hperm | exact sample_workers_return].
Defined.

Example fallback_run :
  update_jmdict_with_vietnamese_parallel fromstring_strict xml_text conn corpus [1; 2; 0]%nat =
  Some (Return (node "JMdict" [entry_nihongo; entry_nichi_vi; entry_hon]),
        [ErrorParsingEntry 0]).
Proof. vm_compute. reflexivity. Qed.

(** C4 as stated fails for an exception raised in a worker: the second
    entry of this corpus has an empty headword form, its worker raises
    [TypeError], and the run raises it in turn; there is no output, neither
    for the failing entry nor for the one before it. *)
Lemma worker_exception_aborts :
  is_corpus corpus_then_empty_keb = true
  ∧ children corpus_then_empty_keb !! 1%nat = Some entry_empty_keb
  ∧ value (process_entry fromstring xml_text conn (xml_text entry_empty_keb)) = Raise TypeError
  ∧ update_jmdict_with_vietnamese_parallel fromstring xml_text conn
      corpus_then_empty_keb [0; 1]%nat = Some (Raise TypeError, [])
  ∧ ¬ ∃ out warnings,
        update_jmdict_with_vietnamese_parallel fromstring xml_text conn
          corpus_then_empty_keb [0; 1]%nat = Some (Return out, warnings).
Proof.
  assert (Hrun : update_jmdict_with_vietnamese_parallel fromstring xml_text conn
                   corpus_then_empty_keb [0; 1]%nat = Some (Raise TypeError, [])).
  { vm_compute. reflexivity. }
  split_and!; try (vm_compute; reflexivity).
  intros (out & warnings & Hout). rewrite Hrun in Hout. discriminate Hout.
Qed.

(** ** C5 *)

(** C5 as stated fails: no word of the store matches the entry for 日,
    yet the record of 日 has a rendering and a character-sense block is
    added. *)
Lemma no_match_block_added :
  value (find_relevant_word conn (ET.findall2 entry_nichi (py "k_ele") (py "keb"))
                            (ET.findall2 entry_nichi (py "r_ele") (py "reb"))) = Return None
  ∧ value (process_element conn entry_nichi) = Return entry_nichi_vi
  ∧ children entry_nichi_vi =
    [node "k_ele" [keb [NICHI]];
     character_sense nhat [[NICHI] ++ py " : day-note"];
     english]
  ∧ entry_nichi_vi ≠ entry_nichi.
Proof.
  split_and!; try (vm_compute; reflexivity).
  intros Heq. apply (f_equal (fun e => length (children e))) in Heq.
  vm_compute in Heq. discriminate Heq.
Qed.

(** The entry for 本: no word matches and the record of 本 has no
    rendering. *)
Lemma no_match_no_rendering_unchanged_witness :
  fromstring (xml_text entry_hon) = Some entry_hon
  ∧ value (find_relevant_word conn (ET.findall2 entry_hon (py "k_ele") (py "keb"))
                              (ET.findall2 entry_hon (py "r_ele") (py "reb"))) = Return None
  ∧ value (collect_kanjis conn (ET.findall2 entry_hon (py "k_ele") (py "keb"))) =
    Return [kanji_of_row (kanji_row HON None (Some (py "book-note")))]
  ∧ Forall (fun k => truthy (Kanji.hanzi k) = false)
           [kanji_of_row (kanji_row HON None (Some (py "book-note")))]
  ∧ value (process_element conn entry_hon) = Return entry_hon
  ∧ value (process_entry fromstring xml_text conn (xml_text entry_hon)) =
    Return (xml_text entry_hon).
Proof.
  assert (Hparse : fromstring (xml_text entry_hon) = Some entry_hon).
  { vm_compute. reflexivity. }
  assert (Hword : value (find_relevant_word conn (ET.findall2 entry_hon (py "k_ele") (py "keb"))
                           (ET.findall2 entry_hon (py "r_ele") (py "reb"))) = Return None).
  { vm_compute. reflexivity. }
  assert (Hkanjis : value (collect_kanjis conn (ET.findall2 entry_hon (py "k_ele") (py "keb"))) =
                    Return [kanji_of_row (kanji_row HON None (Some (py "book-note")))]).
  { vm_compute. reflexivity. }
  assert (Hnone : Forall (fun k => truthy (Kanji.hanzi k) = false)
                         [kanji_of_row (kanji_row HON None (Some (py "book-note")))]).
  { repeat constructor. }
  split; [exact Hparse|]. split; [exact Hword|]. split; [exact Hkanjis|].
  split; [exact Hnone|].
  exact (no_match_no_rendering_unchanged fromstring xml_text conn (xml_text entry_hon)
           entry_hon _ Hparse Hword Hkanjis Hnone).
Defined.

(** ** C6 *)

(** The forms 日日本 and 本語日: 日 and 本 occur again and are counted once;
    語 has no record. *)
Lemma each_character_once_witness :
  map text [keb [NICHI; NICHI; HON]; keb [HON; GO; NICHI]] =
  map Some [[NICHI; NICHI; HON]; [HON; GO; NICHI]]
  ∧ let distinct := first_occurrences (ideographs [[NICHI; NICHI; HON]; [HON; GO; NICHI]]) in
    let records := omap (character_record conn) distinct in
    value (collect_kanjis conn [keb [NICHI; NICHI; HON]; keb [HON; GO; NICHI]]) = Return records
    ∧ NoDup distinct
    ∧ (∀ c, c ∈ distinct ↔ c ∈ ideographs [[NICHI; NICHI; HON]; [HON; GO; NICHI]])
    ∧ distinct `sublist_of` ideographs [[NICHI; NICHI; HON]; [HON; GO; NICHI]]
    ∧ NoDup (map Kanji.kanji records)
    ∧ (∀ c, length (filter (fun k => Kanji.kanji k = Some [c]) records) ≤ 1)%nat
    ∧ StarDict.hanzi (make_stardict records None) = join (py " | ") (variants records).
Proof.
  split; [reflexivity|].
  apply (each_character_once conn [keb [NICHI; NICHI; HON]; keb [HON; GO; NICHI]]
           [[NICHI; NICHI; HON]; [HON; GO; NICHI]] None).
  reflexivity.
Defined.

Example distinct_characters :
  first_occurrences (ideographs [[NICHI; NICHI; HON]; [HON; GO; NICHI]]) = [NICHI; HON; GO]
  ∧ value (collect_kanjis conn [keb [NICHI; NICHI; HON]; keb [HON; GO; NICHI]]) =
    Return [kanji_of_row (kanji_row NICHI (Some nhat) (Some (py "day-note")));
            kanji_of_row (kanji_row HON None (Some (py "book-note")))].
Proof. split; vm_compute; reflexivity. Qed.

(** ** C7 *)

Example blocks_before_english :
  insert_senses entry_nihongo
    [meaning_sense tieng_nhat (Some (py "w-1")); character_sense nhat []] =
  node "entry" [leaf "ent_seq" (Some (py "1"));
                node "k_ele" [keb nihongo];
                node "r_ele" [reb reading];
                meaning_sense tieng_nhat (Some (py "w-1"));
                character_sense nhat [];
                english].
Proof. vm_compute. reflexivity. Qed.

(** ** C8 *)

Lemma merge_concatenates_witness :
  Forall parsed_or_malformed folder
  ∧ merge_xml_files folder =
      (Return (mkElement (py "JMdict") [] None None (concat (map chunk_entries folder))),
       concat (map chunk_errors folder))
  ∧ value (merge_xml_files folder) =
      value (merge_xml_files
               ([(py "jmdict_part_1.xml",
                  Return (node "JMdict" [entry_nihongo; leaf "info" None; entry_nichi]))]
                ++ [(py "jmdict_part_3.xml", Return (node "JMdict" [entry_hon]))]))
  ∧ ErrorParsingFile (py "jmdict_part_2.xml") ∈ printed (merge_xml_files folder)
  ∧ merge_xml_files folder_unreadable =
      (Raise OSError, [ErrorParsingFile (py "jmdict_part_1.xml")])
  ∧ ∀ merged_root, value (merge_xml_files folder_unreadable) ≠ Return merged_root.
Proof.
  assert (Hfolder : Forall parsed_or_malformed folder).
  { repeat constructor. }
  pose proof (merge_concatenates folder) as (Hmerge & Hskip & _).
  destruct (Hskip [(py "jmdict_part_1.xml",
                    Return (node "JMdict" [entry_nihongo; leaf "info" None; entry_nichi]))]
                  (py "jmdict_part_2.xml")
                  [(py "jmdict_part_3.xml", Return (node "JMdict" [entry_hon]))]
                  eq_refl) as [Hvalue Hprinted].
  pose proof (merge_concatenates folder_unreadable) as (_ & _ & Habort).
  destruct (Habort [(py "jmdict_part_1.xml", Raise ParseError);
                    (py "jmdict_part_2.xml", Return (node "JMdict" [entry_hon]))]
                   (py "jmdict_part_3.xml") OSError
                   [(py "jmdict_part_4.xml", Return (node "JMdict" [entry_nichi]))]
                   eq_refl) as [Hraise Hnone].
  { repeat constructor. }
  { discriminate. }
  split_and!.
  - exact Hfolder.
  - exact (Hmerge Hfolder).
  - exact Hvalue.
  - apply Hprinted. repeat constructor.
  - exact Hraise.
  - exact Hnone.
Defined.

Example merge_of_folder :
  merge_xml_files folder =
  (Return (node "JMdict" [entry_nihongo; entry_nichi; entry_hon]),
   [ErrorParsingFile (py "jmdict_part_2.xml")]).
Proof. vm_compute. reflexivity. Qed.

(** A folder whose second file declares an encoding that the parser
    refuses with [ValueError]: the file is not skipped, no error line is
    printed for it, the merge raises and has no corpus to write, so the
    entries of the first and third file are lost with it. *)
Lemma unsupported_encoding_aborts :
  folder_encoding !! 1%nat = Some (py "jmdict_part_2.xml", Raise ValueError)
  ∧ merge_xml_files folder_encoding = (Raise ValueError, [])
  ∧ (∀ merged_root, value (merge_xml_files folder_encoding) ≠ Return merged_root)
  ∧ ErrorParsingFile (py "jmdict_part_2.xml") ∉ printed (merge_xml_files folder_encoding).
Proof.
  split_and!.
  - reflexivity.
  - vm_compute. reflexivity.
  - intros merged_root. vm_compute. discriminate.
  - vm_compute. by intros ?%elem_of_nil.
Qed.

(** ** C9 *)

Lemma empty_headword_raises_witness :
  fromstring (xml_text entry_empty_keb) = Some entry_empty_keb
  ∧ Exists (fun keb => text keb = None) (ET.findall2 entry_empty_keb (py "k_ele") (py "keb"))
  ∧ value (process_entry fromstring xml_text conn (xml_text entry_empty_keb)) = Raise TypeError
  ∧ ∀ result, value (process_entry fromstring xml_text conn (xml_text entry_empty_keb))
              ≠ Return result.
Proof.
  assert (Hparse : fromstring (xml_text entry_empty_keb) = Some entry_empty_keb).
  { vm_compute. reflexivity. }
  assert (Hnone : Exists (fun keb => text keb = None)
                         (ET.findall2 entry_empty_keb (py "k_ele") (py "keb"))).
  { vm_compute. apply Exists_cons_hd. reflexivity. }
  split; [exact Hparse|]. split; [exact Hnone|].
  exact (empty_headword_raises fromstring xml_text conn (xml_text entry_empty_keb)
           entry_empty_keb Hparse Hnone).
Defined.

(** ** C10 *)

(** The record of 本 has an annotation and no rendering. *)
Lemma no_rendering_no_character_sense_witness :
  Forall (fun k => truthy (Kanji.hanzi k) = false)
         [kanji_of_row (kanji_row HON None (Some (py "book-note")))]
  ∧ StarDict.to_xml_sense_elements
      (make_stardict [kanji_of_row (kanji_row HON None (Some (py "book-note")))]
                     (Some (word_of_row word_row))) =
    match Some (word_of_row word_row) with
    | Some w =>
        match Word.mean w with
        | [] => []
        | _ => [meaning_sense (Word.mean w) (Word.anki w)]
        end
    | None => []
    end
  ∧ StarDict.to_xml_sense_elements
      (make_stardict [kanji_of_row (kanji_row HON None (Some (py "book-note")))]
                     (Some (word_of_row word_row))) =
    StarDict.to_xml_sense_elements (make_stardict [] (Some (word_of_row word_row))).
Proof.
  assert (Hnone : Forall (fun k => truthy (Kanji.hanzi k) = false)
                         [kanji_of_row (kanji_row HON None (Some (py "book-note")))]).
  { repeat constructor. }
  split; [exact Hnone|].
  exact (no_rendering_no_character_sense
           [kanji_of_row (kanji_row HON None (Some (py "book-note")))]
           (Some (word_of_row word_row)) Hnone).
Defined.

Example annotation_dropped :
  StarDict.to_xml_sense_elements
    (make_stardict [kanji_of_row (kanji_row HON None (Some (py "book-note")))] None) = [].
Proof. vm_compute. reflexivity. Qed.

(** * Further properties of the code *)

(** ** Sharding *)

Lemma py_slice_chunk {A} (l : list A) (k i : Z) :
  0 < k → 0 ≤ i →
  py_slice l (i * k) (Z.min ((i + 1) * k) (Z.of_nat (length l))) =
  take (Z.to_nat k) (drop (Z.to_nat (i * k)) l).
Proof.
  intros Hk Hi. unfold py_slice, slice_index.
  set (n := Z.of_nat (length l)).
  assert (Hn : 0 ≤ n) by (unfold n; lia).
  assert (Hik : 0 ≤ i * k) by nia.
  rewrite !(proj2 (Z.ltb_ge _ _)) by lia.
  destruct (decide (i * k ≤ n)) as [Hle|Hgt].
  - rewrite (Z.min_l (i * k)) by lia.
    rewrite (Z.min_l (Z.min _ _) n) by lia.
    destruct (decide ((i + 1) * k ≤ n)) as [Hfull|Hlast].
    + rewrite Z.min_l by lia. f_equal. lia.
    + rewrite Z.min_r by lia.
      rewrite !take_ge; [done|rewrite length_drop; unfold n in *; lia..].
  - rewrite (Z.min_r (i * k)) by lia.
    rewrite !drop_ge by (unfold n in *; lia). by rewrite !take_nil.
Qed.

Lemma concat_chunks {A} (m k : nat) (l : list A) :
  (length l ≤ m * k)%nat →
  concat (map (fun i => take k (drop (i * k) l)) (seq 0 m)) = l.
Proof.
  revert l. induction m as [|m IH]; intros l Hl.
  - simpl in *. destruct l; [done|simpl in Hl; lia].
  - rewrite <- cons_seq, <- fmap_S_seq. simpl. rewrite drop_0.
    rewrite <- list_fmap_compose.
    rewrite (list_fmap_ext _ (fun i => take k (drop (i * k) (drop k l))) (seq 0 m)).
    + rewrite IH; [apply take_drop|]. rewrite length_drop. lia.
    + intros i j _. simpl. by rewrite drop_drop.
Qed.

Lemma split_file_children (root : Element) (entries : list Element)
    (entries_per_file total_entries i : Z) :
  children (split_file root entries entries_per_file total_entries i).2 =
  py_slice entries (i * entries_per_file)
           (Z.min ((i + 1) * entries_per_file) total_entries).
Proof. unfold split_file. simpl. by rewrite fold_append. Qed.

Lemma split_file_chunk (root : Element) (entries : list Element) (k : Z) (j : nat) :
  0 < k →
  children (split_file root entries k (Z.of_nat (length entries)) (Z.of_nat j)).2 =
  take (Z.to_nat k) (drop (j * Z.to_nat k) entries).
Proof.
  intros Hk. rewrite split_file_children, py_slice_chunk by lia.
  do 2 f_equal. lia.
Qed.

(** The number of files for a positive chunk size, as a natural number. *)
Lemma num_files_bounds (n k : Z) :
  0 ≤ n → 0 < k →
  let m := (n + k - 1) `div` k in
  0 ≤ m ∧ n ≤ m * k ∧ (m - 1) * k < n ∨ n = 0 ∧ m = 0.
Proof.
  intros Hn Hk m.
  pose proof (Z.mul_div_le (n + k - 1) k Hk) as Hle.
  pose proof (Z.mul_succ_div_gt (n + k - 1) k Hk) as Hgt.
  fold m in Hle, Hgt.
  destruct (decide (n = 0)) as [->|Hne].
  - right. split; [done|]. unfold m. apply Z.div_small. lia.
  - left. split_and!; nia.
Qed.

Lemma split_files_concat (root : Element) (entries_per_file : Z) :
  0 < entries_per_file →
  let entries := ET.findall root (py "entry") in
  let total_entries := Z.of_nat (length entries) in
  concat (map (fun file : pystr * Element => children file.2)
              (map (split_file root entries entries_per_file total_entries)
                   (py_range ((total_entries + entries_per_file - 1) `div` entries_per_file)))) =
  entries.
Proof.
  intros Hk entries n.
  unfold py_range. rewrite <- !list_fmap_compose.
  rewrite (list_fmap_ext _ (fun j => take (Z.to_nat entries_per_file)
                                      (drop (j * Z.to_nat entries_per_file) entries))
             (seq 0 _) );
    [|intros i j _; simpl; by apply split_file_chunk].
  apply concat_chunks.
  destruct (num_files_bounds n entries_per_file) as [(Hm & Hn & _)|[Hn Hm]];
    [unfold n; lia | lia | fold n; nia |].
  unfold n in Hn. lia.
Qed.

(** X1. For a positive chunk size the split finishes, and the children of
    the files it writes, taken file after file, are exactly the entries of
    the input root ([root.findall('entry')]) in their order: no entry is
    lost, repeated or moved. *)
Theorem split_keeps_entries (root : Element) (entries_per_file : Z) :
  0 < entries_per_file →
  ∃ files,
    split_jmdict root entries_per_file = Finished files
    ∧ concat (map (fun file : pystr * Element => children file.2) files) =
      ET.findall root (py "entry").
Proof.
  intros Hk. unfold split_jmdict.
  rewrite (proj2 (Z.eqb_neq _ _)) by lia.
  eexists. split; [reflexivity|].
  by apply split_files_concat.
Qed.

Lemma split_files_lookup (root : Element) (k : Z) (files : list (pystr * Element))
    (j : nat) (file : pystr * Element) :
  split_jmdict root k = Finished files →
  files !! j = Some file →
  let entries := ET.findall root (py "entry") in
  (Z.of_nat j < (Z.of_nat (length entries) + k - 1) `div` k)
  ∧ file = split_file root entries k (Z.of_nat (length entries)) (Z.of_nat j).
Proof.
  unfold split_jmdict. destruct (k =? 0); [done|].
  intros [= <-] Hfile. simpl.
  unfold py_range in Hfile. rewrite <- list_fmap_compose in Hfile.
  rewrite list_lookup_fmap in Hfile.
  destruct (seq 0 _ !! j) as [i|] eqn:Hi; [|done].
  apply lookup_seq in Hi as [-> Hi]. simpl in Hfile. injection Hfile as <-.
  split; [lia|done].
Qed.

(** X2. For a positive chunk size the number of files written is the
    number of entries divided by the chunk size, rounded up (none for an
    input without entries); every file holds at least one entry and at
    most the chunk size, and every file but the last holds exactly the
    chunk size. *)
Theorem split_chunk_sizes (root : Element) (entries_per_file : Z) :
  0 < entries_per_file →
  ∃ files,
    split_jmdict root entries_per_file = Finished files
    ∧ Z.of_nat (length files) =
      (Z.of_nat (length (ET.findall root (py "entry"))) + entries_per_file - 1)
        `div` entries_per_file
    ∧ (ET.findall root (py "entry") = [] → files = [])
    ∧ ∀ j file, files !! j = Some file →
        1 ≤ Z.of_nat (length (children file.2)) ≤ entries_per_file
        ∧ ((S j < length files)%nat →
           Z.of_nat (length (children file.2)) = entries_per_file).
Proof.
  intros Hk.
  set (entries := ET.findall root (py "entry")).
  set (n := Z.of_nat (length entries)).
  set (m := (n + entries_per_file - 1) `div` entries_per_file).
  assert (Hsplit : split_jmdict root entries_per_file =
            Finished (map (split_file root entries entries_per_file n) (py_range m))).
  { unfold split_jmdict. by rewrite (proj2 (Z.eqb_neq _ _)) by lia. }
  assert (Hbounds : 0 ≤ m ∧ n ≤ m * entries_per_file ∧ (m - 1) * entries_per_file < n
                    ∨ n = 0 ∧ m = 0).
  { apply num_files_bounds; unfold n; lia. }
  assert (Hlen : Z.of_nat (length (map (split_file root entries entries_per_file n)
                                      (py_range m))) = m).
  { unfold py_range. rewrite !length_map, length_seq. lia. }
  eexists. split; [exact Hsplit|]. split; [exact Hlen|]. split.
  - intros Hnil. fold entries in Hnil.
    assert (m = 0) as ->; [|done].
    destruct Hbounds as [(? & ? & ?)|[? ?]]; [|done].
    unfold n in *. rewrite Hnil in *. simpl in *. nia.
  - intros j file Hfile.
    destruct (split_files_lookup root entries_per_file _ j file Hsplit Hfile) as [Hj ->].
    fold entries n m in Hj |- *.
    unfold n. rewrite split_file_chunk by done.
    rewrite length_take, length_drop. fold n.
    destruct Hbounds as [(Hm & Hn & Hlast)|[Hn Hm]]; [|lia].
    assert (Hjn : Z.of_nat j * entries_per_file < n) by nia.
    split.
    + unfold n in *. nia.
    + intros Hnext.
      assert (Hnext' : Z.of_nat (S j) < m) by lia.
      assert ((Z.of_nat j + 1) * entries_per_file ≤ (m - 1) * entries_per_file) by nia.
      unfold n in *. nia.
Qed.

Lemma py_inj (s1 s2 : string) : py s1 = py s2 → s1 = s2.
Proof.
  revert s2. induction s1 as [|a1 s1 IH]; intros [|a2 s2]; try done.
  unfold py. fold py. intros [= Ha Hs]. f_equal; [|by apply IH].
  apply Nat2Z.inj in Ha.
  rewrite <- (Ascii.ascii_nat_embedding a1), <- (Ascii.ascii_nat_embedding a2).
  by rewrite Ha.
Qed.

(** X3. Whenever the split finishes, the file at position [j] is named
    [jmdict_part_<j+1>.xml], its root has the tag and the attributes of
    the input root and neither text nor tail, and no two files have the
    same name: no file written overwrites another. *)
Theorem split_file_names (root : Element) (entries_per_file : Z)
    (files : list (pystr * Element)) :
  split_jmdict root entries_per_file = Finished files →
  (∀ j file, files !! j = Some file →
     file.1 = py "jmdict_part_" ++ py_str (Z.of_nat j + 1) ++ py ".xml"
     ∧ tag file.2 = tag root ∧ attrib file.2 = attrib root
     ∧ text file.2 = None ∧ tail file.2 = None)
  ∧ NoDup (map fst files).
Proof.
  intros Hsplit.
  assert (Hfile : ∀ j file, files !! j = Some file →
     file.1 = py "jmdict_part_" ++ py_str (Z.of_nat j + 1) ++ py ".xml"
     ∧ tag file.2 = tag root ∧ attrib file.2 = attrib root
     ∧ text file.2 = None ∧ tail file.2 = None).
  { intros j file Hj.
    destruct (split_files_lookup root entries_per_file files j file Hsplit Hj) as [_ ->].
    unfold split_file. simpl. rewrite fold_append. done. }
  split; [exact Hfile|].
  apply NoDup_alt. intros j1 j2 name Hj1 Hj2.
  rewrite list_lookup_fmap in Hj1, Hj2.
  destruct (files !! j1) as [file1|] eqn:Hfile1; [|done].
  destruct (files !! j2) as [file2|] eqn:Hfile2; [|done].
  simpl in Hj1, Hj2. injection Hj1 as Hj1. injection Hj2 as Hj2.
  destruct (Hfile j1 file1 Hfile1) as [Hname1 _].
  destruct (Hfile j2 file2 Hfile2) as [Hname2 _].
  rewrite Hj1 in Hname1. rewrite Hj2, Hname1 in Hname2.
  apply app_inv_head, app_inv_tail in Hname2.
  unfold py_str in Hname2. apply py_inj, (inj pretty) in Hname2. lia.
Qed.

(** X4. A chunk size that is not positive never writes an entry: zero
    raises [ZeroDivisionError] before any file is written, and a negative
    size ends without an error, with no file at all when the input has two
    entries or more and otherwise with files that hold no entry. *)
Theorem split_nonpositive_loses_entries (root : Element) (entries_per_file : Z) :
  entries_per_file ≤ 0 →
  match split_jmdict root entries_per_file with
  | Aborted e => entries_per_file = 0 ∧ e = ZeroDivisionError
  | Finished files =>
      entries_per_file < 0
      ∧ Forall (fun file : pystr * Element => children file.2 = []) files
      ∧ ((2 ≤ length (ET.findall root (py "entry")))%nat → files = [])
  end.
Proof.
  intros Hk. unfold split_jmdict.
  destruct (entries_per_file =? 0) eqn:Hzero.
  - apply Z.eqb_eq in Hzero. done.
  - apply Z.eqb_neq in Hzero.
    set (entries := ET.findall root (py "entry")).
    set (n := Z.of_nat (length entries)).
    set (m := (n + entries_per_file - 1) `div` entries_per_file).
    assert (Hfew : 1 ≤ m → n ≤ 1).
    { intros Hm.
      pose proof (Z.div_mod (n + entries_per_file - 1) entries_per_file Hzero) as Hdiv.
      pose proof (Z.mod_neg_bound (n + entries_per_file - 1) entries_per_file) as Hmod.
      fold m in Hdiv. nia. }
    split_and!; [lia| |].
    + apply Forall_forall. intros file Hfile.
      apply list_elem_of_fmap in Hfile as (i & -> & Hi).
      unfold py_range in Hi. apply list_elem_of_fmap in Hi as (j & -> & Hj).
      apply elem_of_seq in Hj.
      rewrite split_file_children. unfold py_slice, slice_index. fold n.
      assert (Hn : n ≤ 1) by (apply Hfew; lia).
      assert (Hn0 : 0 ≤ n) by (unfold n; lia).
      assert (Hstop : Z.min ((Z.of_nat j + 1) * entries_per_file) n < 0) by nia.
      rewrite (proj2 (Z.ltb_lt _ _) Hstop).
      replace (Z.max (Z.min ((Z.of_nat j + 1) * entries_per_file) n + n) 0) with 0 by nia.
      destruct (Z.of_nat j * entries_per_file <? 0) eqn:Hstart.
      * replace (Z.max (Z.of_nat j * entries_per_file + n) 0) with 0 by nia. done.
      * apply Z.ltb_ge in Hstart.
        replace (Z.min (Z.of_nat j * entries_per_file) n) with 0 by nia. done.
    + intros Hmany. fold entries in Hmany.
      assert (m ≤ 0) as Hm; [|unfold py_range; by replace (Z.to_nat m) with 0%nat by lia].
      destruct (decide (1 ≤ m)) as [Hone|]; [|lia].
      apply Hfew in Hone. unfold n in Hone. lia.
Qed.

(** X5. Splitting and then merging the files in the order written gives a
    [JMdict] root whose children are exactly the entries of the input
    root, with no error line, provided that [ET.parse] reads every file
    written back as a tree with the children that were written. The
    proviso is not a consequence of the code: [tree.write] writes a U+000D
    of a text as it is and the parser reads it back as U+000A.
    [read_back] is what [ET.parse] makes of a written file. The tag,
    attributes and other children of the input root are not carried
    over. *)
Theorem split_then_merge (root : Element) (entries_per_file : Z)
    (read_back : pystr * Element → outcome Element) :
  0 < entries_per_file →
  ∃ files,
    split_jmdict root entries_per_file = Finished files
    ∧ ((∀ file, file ∈ files →
          ∃ tree, read_back file = Return tree ∧ children tree = children file.2) →
       merge_xml_files (map (fun file : pystr * Element => (file.1, read_back file)) files) =
       (Return (mkElement (py "JMdict") [] None None (ET.findall root (py "entry"))), [])).
Proof.
  intros Hk.
  assert (Hfiles : split_jmdict root entries_per_file =
    Finished (map (split_file root (ET.findall root (py "entry")) entries_per_file
                     (Z.of_nat (length (ET.findall root (py "entry")))))
                  (py_range ((Z.of_nat (length (ET.findall root (py "entry")))
                              + entries_per_file - 1) `div` entries_per_file)))).
  { unfold split_jmdict. by rewrite (proj2 (Z.eqb_neq _ _)) by lia. }
  pose proof (split_files_concat root entries_per_file Hk) as Hconcat.
  cbv zeta in Hconcat.
  eexists. split; [exact Hfiles|].
  set (files := map _ (py_range _)) in *.
  intros Hread.
  assert (Hparsed : Forall parsed_or_malformed
            (map (fun file : pystr * Element => (file.1, read_back file)) files)).
  { apply Forall_fmap, Forall_forall. intros file Hfile.
    destruct (Hread file Hfile) as (tree & Htree & _).
    unfold parsed_or_malformed. simpl. by rewrite Htree. }
  unfold merge_xml_files. rewrite merge_files_from by done. simpl.
  assert (Hentries : Forall (fun c => tag c = py "entry") (ET.findall root (py "entry"))).
  { rewrite findall_filter. apply Forall_forall. intros c Hc.
    by apply list_elem_of_filter in Hc as [Hc _]. }
  assert (Hchunks : concat (map chunk_entries
              (map (fun file : pystr * Element => (file.1, read_back file)) files)) =
            concat (map (fun file : pystr * Element => children file.2) files)).
  { f_equal. rewrite <- list_fmap_compose. apply list_fmap_ext.
    intros j file Hfile. unfold chunk_entries. simpl.
    destruct (Hread file) as (tree & -> & ->); [by eapply list_elem_of_lookup_2|].
    apply filter_all.
    destruct (split_files_lookup root entries_per_file files j file Hfiles Hfile) as [_ ->].
    rewrite split_file_chunk by done.
    eapply Forall_take, Forall_drop, Hentries. }
  rewrite Hchunks, Hconcat. f_equal.
  assert (Hnone : ∀ file, file ∈ files →
            chunk_errors (file.1, read_back file) = []).
  { intros file Hfile. destruct (Hread file Hfile) as (tree & Htree & _).
    unfold chunk_errors. simpl. by rewrite Htree. }
  clear -Hnone. induction files as [|file files IH]; [done|].
  simpl. rewrite Hnone by left. simpl. apply IH.
  intros file' Hfile'. apply Hnone. by right.
Qed.

(** ** A store that cannot be queried *)

Lemma bind_pair {A B} (a : A) (out : list event) (f : A → Py B) :
  (Return a, out) ≫= f = ((f a).1, out ++ (f a).2).
Proof. reflexivity. Qed.

Lemma get_kanji_from_chars_down (conn : Connection) (chars : pystr) (kanjis : list Kanji.t) :
  kanji conn = None →
  get_kanji_from_chars conn chars kanjis =
  (Return kanjis,
   replicate (length (filter (fun c => 19968 ≤ c ≤ 40959) chars)) DatabaseError).
Proof.
  intros Hdown. induction chars as [|c chars IH]; [done|].
  rewrite filter_cons. cbn [get_kanji_from_chars]. unfold ideographic.
  destruct ((19968 <=? c) && (c <=? 40959)) eqn:Hc.
  - rewrite decide_True by lia. unfold get_kanji. rewrite Hdown.
    unfold print. rewrite !bind_pair. simpl. by rewrite IH.
  - rewrite decide_False by lia. exact IH.
Qed.

Lemma collect_from_down (conn : Connection) (kanji_elements : list Element)
    (forms : list pystr) (seen : gset (option pystr)) (kanjis : list Kanji.t) :
  kanji conn = None →
  map text kanji_elements = map Some forms →
  collect_from conn kanji_elements seen kanjis =
  (Return kanjis, replicate (length (ideographs forms)) DatabaseError).
Proof.
  intros Hdown. revert forms.
  induction kanji_elements as [|k_ele rest IH]; intros forms Htexts.
  - by destruct forms.
  - destruct forms as [|form forms]; [done|].
    injection Htexts as Htext Htexts.
    cbn [collect_from]. rewrite Htext. cbn [get_kanji_from_word].
    rewrite get_kanji_from_chars_down by done. rewrite bind_pair.
    cbn [add_unseen]. rewrite (IH forms) by done.
    unfold ideographs. simpl. by rewrite filter_app, length_app, replicate_add.
Qed.

Lemma find_in_elements_down (conn : Connection) (elements : list Element) :
  words conn = None →
  find_in_elements conn elements =
  (Return None, replicate (length elements) DatabaseError).
Proof.
  intros Hdown. induction elements as [|ele rest IH]; [done|].
  cbn [find_in_elements]. unfold get_words. rewrite Hdown.
  unfold print. rewrite !bind_pair. simpl. by rewrite IH.
Qed.

Lemma texts_present (elements : list Element) :
  Forall (fun e => text e ≠ None) elements →
  ∃ forms, map text elements = map Some forms.
Proof.
  induction 1 as [|e elements He _ [forms IH]]; [by exists []|].
  destruct (text e) as [form|] eqn:Hform; [|done].
  exists (form :: forms). simpl. by rewrite Hform, IH.
Qed.

(** X6. When neither table of the store can be queried, processing an
    entry whose headword forms all have text does not raise: every lookup
    prints one "Database error" line (one per ideographic character of the
    headword forms, then one per headword and reading form) and counts as
    no result, and the entry is returned unchanged. *)
Theorem store_down_entry_unchanged (conn : Connection) (entry : Element) (forms : list pystr) :
  words conn = None → kanji conn = None →
  map text (ET.findall2 entry (py "k_ele") (py "keb")) = map Some forms →
  process_element conn entry =
  (Return entry,
   replicate (length (ideographs forms)
              + length (ET.findall2 entry (py "k_ele") (py "keb"))
              + length (ET.findall2 entry (py "r_ele") (py "reb"))) DatabaseError).
Proof.
  intros Hwords Hkanji Htexts. unfold process_element, collect_kanjis.
  rewrite (collect_from_down conn _ forms) by done. rewrite bind_pair.
  unfold find_relevant_word. rewrite !find_in_elements_down by done.
  rewrite !bind_pair. simpl.
  by rewrite !replicate_add, app_nil_r, app_assoc.
Qed.

(** ** When processing returns, and what it returns *)

Lemma synthesised_blocks_shape (kanjis : list Kanji.t) (word : option Word.t) :
  (length (StarDict.to_xml_sense_elements (make_stardict kanjis word)) ≤ 2)%nat
  ∧ Forall (fun block => tag block = py "sense")
           (StarDict.to_xml_sense_elements (make_stardict kanjis word)).
Proof.
  rewrite synthesised_blocks.
  destruct word as [w|]; [destruct (Word.mean w)|]; destruct (variants kanjis);
    simpl; split; try lia; repeat constructor.
Qed.

Lemma first_sense_unique (before1 after1 before2 after2 : list Element) :
  before1 ++ after1 = before2 ++ after2 →
  Forall (fun c => tag c ≠ py "sense") before1 →
  Forall (fun c => tag c ≠ py "sense") before2 →
  match after1 with [] => True | first :: _ => tag first = py "sense" end →
  match after2 with [] => True | first :: _ => tag first = py "sense" end →
  before1 = before2 ∧ after1 = after2.
Proof.
  revert before2. induction before1 as [|c before1 IH]; intros before2 Heq H1 H2 Ha1 Ha2.
  - destruct before2 as [|c2 before2]; [done|].
    simpl in Heq. subst after1. apply Forall_cons in H2 as [Hc2 _]. done.
  - apply Forall_cons in H1 as [Hc H1].
    destruct before2 as [|c2 before2].
    + simpl in Heq. subst after2. done.
    + injection Heq as -> Heq. apply Forall_cons in H2 as [_ H2].
      destruct (IH before2 Heq H1 H2 Ha1 Ha2) as [-> ->]. done.
Qed.

(** Where [insert_senses] puts the blocks, for any way of cutting the
    children in front of the first sense. *)
Lemma insert_senses_at (entry : Element) (blocks before after : list Element) :
  children entry = before ++ after →
  Forall (fun c => tag c ≠ py "sense") before →
  match after with [] => True | first :: _ => tag first = py "sense" end →
  insert_senses entry blocks =
  mkElement (tag entry) (attrib entry) (text entry) (tail entry) (before ++ blocks ++ after).
Proof.
  intros Hchildren Hbefore Hafter.
  pose proof (findall_at_first (py "sense") (children entry) 0) as Hfirst.
  assert (Hsplit : ∃ before' after',
    children entry = before' ++ after'
    ∧ Forall (fun c => tag c ≠ py "sense") before'
    ∧ match after' with [] => True | first :: _ => tag first = py "sense" end
    ∧ insert_senses entry blocks =
      mkElement (tag entry) (attrib entry) (text entry) (tail entry)
                (before' ++ blocks ++ after')).
  { destruct blocks as [|b blocks].
    - simpl. destruct (List.filter _ _) as [|[i first] found].
      + exists (children entry), (@nil Element). rewrite !app_nil_r.
        split_and!; [done.. | by destruct entry].
      + destruct Hfirst as (before' & first' & after' & Hcs & _ & Hbefore' & Htag).
        exists before', (first' :: after'). rewrite <- Hcs.
        split_and!; [done.. | by destruct entry].
    - unfold insert_senses, ET.findall_at.
      rewrite (imap_ext _ (fun i c => ((0 + i)%nat, c))) by done.
      destruct (List.filter _ _) as [|[i first] found].
      + exists (children entry), (@nil Element). rewrite !app_nil_r.
        split_and!; [done..|]. by rewrite fold_append.
      + destruct Hfirst as (before' & first' & after' & Hcs & -> & Hbefore' & Htag).
        exists before', (first' :: after').
        split_and!; [done..|].
        rewrite fold_insert_reverse by (rewrite Hcs, length_app; lia).
        rewrite Hcs. simpl.
        rewrite take_app_length, drop_app_length. done. }
  destruct Hsplit as (before' & after' & Hchildren' & Hbefore' & Hafter' & ->).
  rewrite Hchildren in Hchildren'.
  destruct (first_sense_unique before after before' after' Hchildren') as [-> ->]; done.
Qed.

Lemma first_sense_split (cs : list Element) :
  ∃ before after,
    cs = before ++ after
    ∧ Forall (fun c => tag c ≠ py "sense") before
    ∧ match after with [] => True | first :: _ => tag first = py "sense" end.
Proof.
  induction cs as [|c cs (before & after & -> & Hbefore & Hafter)].
  - by exists [], [].
  - destruct (decide (tag c = py "sense")) as [Hc|Hc].
    + exists [], (c :: before ++ after). split_and!; [done|constructor|done].
    + exists (c :: before), after. split_and!; [done|by constructor|done].
Qed.

(** X7. Processing an entry returns exactly when every headword form of
    the entry has text, whatever the store holds and whatever the reading
    forms are. What it returns is the entry with the same tag, attributes,
    text and tail, its children in their order, and at most two new
    children, all of them sense blocks, in front of its first sense. *)
Theorem process_element_returns (conn : Connection) (entry : Element) :
  ((∃ result, value (process_element conn entry) = Return result)
   ↔ Forall (fun keb => text keb ≠ None) (ET.findall2 entry (py "k_ele") (py "keb")))
  ∧ ∀ result, value (process_element conn entry) = Return result →
      ∃ blocks before after,
        children entry = before ++ after
        ∧ Forall (fun c => tag c ≠ py "sense") before
        ∧ match after with [] => True | first :: _ => tag first = py "sense" end
        ∧ (length blocks ≤ 2)%nat
        ∧ Forall (fun block => tag block = py "sense") blocks
        ∧ result = mkElement (tag entry) (attrib entry) (text entry) (tail entry)
                             (before ++ blocks ++ after).
Proof.
  set (kebs := ET.findall2 entry (py "k_ele") (py "keb")).
  set (rebs := ET.findall2 entry (py "r_ele") (py "reb")).
  assert (Hshape : ∀ result, value (process_element conn entry) = Return result →
    Forall (fun keb => text keb ≠ None) kebs
    ∧ ∃ kanjis word, result = insert_senses entry
        (StarDict.to_xml_sense_elements (make_stardict kanjis word))).
  { intros result. unfold process_element. fold kebs rebs.
    rewrite value_bind.
    destruct (decide (Forall (fun keb => text keb ≠ None) kebs)) as [Hall|Hsome].
    - destruct (texts_present kebs Hall) as [forms Hforms].
      unfold collect_kanjis. rewrite (collect_from_value conn kebs forms) by done.
      rewrite value_bind, find_relevant_word_value. simpl.
      intros [= <-]. split; [done|]. eauto.
    - apply not_Forall_Exists in Hsome; [|apply _].
      unfold collect_kanjis. rewrite collect_from_raises; [done|].
      eapply Exists_impl; [exact Hsome|]. intros keb Hkeb. simpl in Hkeb.
      destruct (text keb); [|done]. by destruct Hkeb. }
  split; [split|].
  - intros [result Hresult]. by apply Hshape in Hresult as [? _].
  - intros Hall. destruct (texts_present kebs Hall) as [forms Hforms].
    unfold process_element. fold kebs rebs.
    rewrite value_bind. unfold collect_kanjis.
    rewrite (collect_from_value conn kebs forms) by done.
    rewrite value_bind, find_relevant_word_value. simpl. eauto.
  - intros result Hresult.
    apply Hshape in Hresult as (_ & kanjis & word & ->).
    destruct (first_sense_split (children entry)) as (before & after & Hcs & Hbefore & Hafter).
    destruct (synthesised_blocks_shape kanjis word) as [Hlen Htags].
    exists (StarDict.to_xml_sense_elements (make_stardict kanjis word)), before, after.
    split_and!; try done. by apply insert_senses_at.
Qed.

(** ** The meaning text of a record *)

Lemma join_nonempty (sep : pystr) (pieces : list pystr) :
  pieces ≠ [] → Forall (fun p => p ≠ []) pieces → join sep pieces ≠ [].
Proof.
  intros Hpieces Hne Hjoin. by apply join_nil_inv in Hjoin.
Qed.

(** X8. The gloss text of a record is empty only when the record has no
    meaning text or an empty one: the filter for Vietnamese clauses never
    empties a meaning text. So a matched record yields a meaning-sense
    block exactly when its meaning text is not empty. *)
Theorem meaning_text_never_emptied (record : WordRow) (kanjis : list Kanji.t) :
  (Word.mean (word_of_row record) = [] ↔ r_mean record = None ∨ r_mean record = Some [])
  ∧ (head (StarDict.to_xml_sense_elements (make_stardict kanjis (Some (word_of_row record)))) =
       Some (meaning_sense (Word.mean (word_of_row record)) (r_anki record))
     ↔ ∃ meaning, r_mean record = Some meaning ∧ meaning ≠ []).
Proof.
  assert (Hempty : Word.mean (word_of_row record) = []
                   ↔ r_mean record = None ∨ r_mean record = Some []).
  { unfold word_of_row. simpl.
    destruct (r_mean record) as [[|c m]|]; simpl; [naive_solver| |naive_solver].
    split; [|naive_solver]. intros Hmean. exfalso. revert Hmean.
    unfold Word._process_mean.
    destruct (List.filter _ _) as [|q qs] eqn:Hq; [done|].
    apply join_nonempty; [done|].
    rewrite <- Hq. apply Forall_forall. intros p Hp.
    apply list_elem_of_In, filter_In in Hp as [_ Hp]. by destruct p. }
  split; [exact Hempty|].
  rewrite synthesised_blocks.
  change (Word.anki (word_of_row record)) with (r_anki record).
  destruct (Word.mean (word_of_row record)) as [|c m] eqn:Hmean.
  - split.
    + destruct (variants kanjis); simpl; [done|]. by intros [=].
    + intros (meaning & Hsome & Hne).
      destruct (proj1 Hempty eq_refl) as [Hm|Hm]; congruence.
  - split; [|done]. intros _.
    destruct (r_mean record) as [[|c' m']|] eqn:Hrecord.
    + discriminate (proj2 Hempty (or_intror eq_refl)).
    + by exists (c' :: m').
    + discriminate (proj2 Hempty (or_introl eq_refl)).
Qed.

(** ** Trimming, and the meaning text filtered twice *)

Lemma lstrip_idem (s : pystr) : lstrip (lstrip s) = lstrip s.
Proof.
  induction s as [|c s IH]; [done|].
  cbn [lstrip]. destruct (py_isspace c) eqn:Hc; [done|].
  cbn [lstrip]. by rewrite Hc.
Qed.

Lemma lstrip_head (s : pystr) :
  lstrip s = [] ∨ ∃ c t, lstrip s = c :: t ∧ py_isspace c = false.
Proof.
  induction s as [|c s IH]; [by left|].
  cbn [lstrip]. destruct (py_isspace c) eqn:Hc; [done|]. right. eauto.
Qed.

Lemma lstrip_snoc (l : pystr) (c : Z) :
  py_isspace c = false → lstrip (l ++ [c]) = lstrip l ++ [c].
Proof.
  intros Hc. induction l as [|x l IH].
  - cbn [lstrip app]. by rewrite Hc.
  - rewrite <- app_comm_cons. cbn [lstrip]. by destruct (py_isspace x).
Qed.

Lemma rstrip_cons (c : Z) (t : pystr) :
  py_isspace c = false → rstrip (c :: t) = c :: rstrip t.
Proof.
  intros Hc. unfold rstrip.
  by rewrite reverse_cons, lstrip_snoc, reverse_app by done.
Qed.

Lemma rstrip_idem (s : pystr) : rstrip (rstrip s) = rstrip s.
Proof. unfold rstrip. by rewrite reverse_involutive, lstrip_idem. Qed.

Lemma strip_idem (s : pystr) : strip (strip s) = strip s.
Proof.
  unfold strip. destruct (lstrip_head s) as [->|(c & t & -> & Hc)]; [done|].
  rewrite rstrip_cons by done. cbn [lstrip]. rewrite Hc.
  by rewrite rstrip_cons, rstrip_idem by done.
Qed.

Lemma strip_after_space (s : pystr) : strip (SPACE :: s) = strip s.
Proof. reflexivity. Qed.

Lemma elem_of_lstrip (c : Z) (s : pystr) : c ∈ lstrip s → c ∈ s.
Proof.
  induction s as [|x s IH]; [done|].
  cbn [lstrip]. destruct (py_isspace x); [|done].
  intros Hc. right. by apply IH.
Qed.

Lemma elem_of_strip (c : Z) (s : pystr) : c ∈ strip s → c ∈ s.
Proof.
  unfold strip, rstrip. rewrite elem_of_reverse.
  intros Hc. apply elem_of_lstrip in Hc. rewrite elem_of_reverse in Hc.
  by apply elem_of_lstrip.
Qed.

Lemma split_pieces (sep : Z) (s : pystr) : Forall (fun p => sep ∉ p) (split sep s).
Proof.
  induction s as [|c s IH]; [repeat constructor; by intros ?%elem_of_nil|].
  cbn [split]. destruct (c =? sep) eqn:Hc.
  - constructor; [by intros ?%elem_of_nil|done].
  - apply Z.eqb_neq in Hc. destruct (split sep s) as [|p ps].
    + repeat constructor. intros Hin. apply list_elem_of_singleton in Hin. by subst.
    + apply Forall_cons in IH as [Hp Hps]. constructor; [|done].
      intros [?|?]%elem_of_cons; by subst.
Qed.

Lemma split_join (q : pystr) (qs : list pystr) :
  Forall (fun p => SEMICOLON ∉ p) (q :: qs) →
  split SEMICOLON (join [SEMICOLON; SPACE] (q :: qs)) = q :: map (cons SPACE) qs.
Proof.
  revert q. induction qs as [|q' qs IH]; intros q Hall.
  - apply Forall_cons in Hall as [Hq _]. cbn [join map].
    induction q as [|c q IHq]; [done|].
    apply not_elem_of_cons in Hq as [Hc Hq].
    cbn [split]. rewrite (proj2 (Z.eqb_neq _ _)) by done. by rewrite IHq.
  - apply Forall_cons in Hall as [Hq Hall].
    change (join [SEMICOLON; SPACE] (q :: q' :: qs))
      with (q ++ [SEMICOLON; SPACE] ++ join [SEMICOLON; SPACE] (q' :: qs)).
    induction q as [|c q IHq].
    + cbn [app split]. change (SEMICOLON =? SEMICOLON) with true. cbn iota.
      change (SPACE =? SEMICOLON) with false. cbn iota.
      by rewrite (IH q' Hall).
    + apply not_elem_of_cons in Hq as [Hc Hq].
      rewrite <- app_comm_cons. cbn [split].
      rewrite (proj2 (Z.eqb_neq _ _)) by done. by rewrite (IHq Hq).
Qed.

Lemma filter_fixed {A} (f : A → bool) (l : list A) :
  Forall (fun x => f x = true) l → List.filter f l = l.
Proof.
  induction 1 as [|x l Hx _ IH]; [done|]. simpl. by rewrite Hx, IH.
Qed.

(** X9. The extraction of Vietnamese meanings is idempotent: applied to
    its own result it changes nothing. *)
Theorem process_mean_idempotent (mean : pystr) :
  Word._process_mean (Word._process_mean mean) = Word._process_mean mean.
Proof.
  unfold Word._process_mean at 2 3.
  destruct (List.filter (existsb Word.vietnamese) (map strip (split SEMICOLON mean)))
    as [|q qs] eqn:Hfilter; [|].
  - unfold Word._process_mean. by rewrite Hfilter.
  - assert (Hall : Forall (fun p => existsb Word.vietnamese p = true
                                 ∧ strip p = p ∧ SEMICOLON ∉ p) (q :: qs)).
    { rewrite <- Hfilter. apply Forall_forall. intros p Hp.
      apply list_elem_of_In, filter_In in Hp as [Hp Hviet].
      apply list_elem_of_In, list_elem_of_fmap in Hp as (x & -> & Hx).
      split_and!; [done|apply strip_idem|].
      intros Hin%elem_of_strip.
      pose proof (split_pieces SEMICOLON mean) as Hpieces.
      rewrite Forall_forall in Hpieces. by apply (Hpieces x). }
    unfold Word._process_mean.
    change (py "; ") with [SEMICOLON; SPACE].
    rewrite split_join by (eapply Forall_impl; [exact Hall|]; naive_solver).
    assert (Hstrip : map strip (q :: map (cons SPACE) qs) = q :: qs).
    { apply Forall_cons in Hall as [(_ & Hq & _) Hqs]. cbn [map]. rewrite Hq. f_equal.
      rewrite <- list_fmap_compose. clear -Hqs.
      induction Hqs as [|p ps (_ & Hp & _) _ IH]; [done|].
      simpl. rewrite strip_after_space, Hp. f_equal. exact IH. }
    rewrite Hstrip, filter_fixed; [done|].
    eapply Forall_impl; [exact Hall|]. naive_solver.
Qed.

(** ** Processing an entry twice *)

Lemma findall2_skips (e : Element) (a b : pystr) (before blocks after : list Element) :
  Forall (fun block => tag block ≠ a) blocks →
  ET.findall2 (mkElement (tag e) (attrib e) (text e) (tail e) (before ++ blocks ++ after)) a b =
  ET.findall2 (mkElement (tag e) (attrib e) (text e) (tail e) (before ++ after)) a b.
Proof.
  intros Hblocks. unfold ET.findall2, ET.findall. simpl.
  rewrite !List.filter_app.
  assert (Hnone : List.filter (ET.has_tag a) blocks = []).
  { clear -Hblocks. induction Hblocks as [|c cs Hc _ IH]; [done|].
    simpl. unfold ET.has_tag at 1. by rewrite bool_decide_false. }
  by rewrite Hnone.
Qed.

Lemma process_element_blocks (conn : Connection) (entry result : Element) :
  value (process_element conn entry) = Return result →
  ∃ kanjis word,
    value (collect_kanjis conn (ET.findall2 entry (py "k_ele") (py "keb"))) = Return kanjis
    ∧ value (find_relevant_word conn (ET.findall2 entry (py "k_ele") (py "keb"))
                                (ET.findall2 entry (py "r_ele") (py "reb"))) = Return word
    ∧ result = insert_senses entry
                 (StarDict.to_xml_sense_elements (make_stardict kanjis word)).
Proof.
  unfold process_element. rewrite value_bind.
  destruct (value (collect_kanjis _ _)) as [kanjis|e]; [|done].
  rewrite value_bind.
  destruct (value (find_relevant_word _ _ _)) as [word|e]; [|done].
  simpl. intros [= <-]. eauto.
Qed.

(** X10. Processing is not idempotent. When processing an entry returns,
    processing the result again returns too, and inserts the same blocks a
    second time, in front of those of the first pass: nothing in the code
    recognises an entry that was already enriched. *)
Theorem reprocessing_repeats_blocks (conn : Connection) (entry result : Element) :
  value (process_element conn entry) = Return result →
  ∃ blocks before after,
    children entry = before ++ after
    ∧ Forall (fun c => tag c ≠ py "sense") before
    ∧ result = mkElement (tag entry) (attrib entry) (text entry) (tail entry)
                         (before ++ blocks ++ after)
    ∧ value (process_element conn result) =
      Return (mkElement (tag entry) (attrib entry) (text entry) (tail entry)
                        (before ++ blocks ++ blocks ++ after)).
Proof.
  intros Hresult.
  apply process_element_blocks in Hresult as (kanjis & word & Hkanjis & Hword & ->).
  set (blocks := StarDict.to_xml_sense_elements (make_stardict kanjis word)).
  destruct (first_sense_split (children entry)) as (before & after & Hcs & Hbefore & Hafter).
  destruct (synthesised_blocks_shape kanjis word) as [_ Htags]. fold blocks in Htags.
  exists blocks, before, after. split_and!; try done.
  { by apply insert_senses_at. }
  rewrite (insert_senses_at entry blocks before after) by done.
  assert (Hentry : mkElement (tag entry) (attrib entry) (text entry) (tail entry)
                             (before ++ after) = entry).
  { rewrite <- Hcs. by destruct entry. }
  unfold process_element.
  rewrite !findall2_skips
    by (eapply Forall_impl; [exact Htags|]; intros block ->; by vm_compute).
  rewrite Hentry.
  rewrite value_bind, Hkanjis, value_bind, Hword. simpl. f_equal.
  fold blocks.
  rewrite (insert_senses_at _ blocks before (blocks ++ after)); [done|done|done|].
  clearbody blocks. destruct blocks as [|block blocks']; [done|].
  by apply Forall_cons in Htags as [Hblock _].
Qed.

(** ** An exact headword hit *)

Lemma filter_head_find (table : list WordRow) (q : pystr) :
  head (List.filter (fun r => sql_eq (r_word r) (Some q)) table) =
  snd <$> list_find (fun r => r_word r = Some q) table.
Proof.
  induction table as [|r table IH]; [done|].
  simpl. unfold sql_eq at 1.
  destruct (r_word r) as [w|] eqn:Hw.
  - case_bool_decide as Hq; case_decide as Hq'; simplify_eq; try done.
    rewrite IH. by destruct (list_find _ table) as [[i r']|].
  - rewrite decide_False by done.
    rewrite IH. by destruct (list_find _ table) as [[i r']|].
Qed.

(** X11. When the text of the first headword form is not empty, has no
    whitespace at either end, and is the headword of some record of the
    store, matching returns the first such record in the order of the
    table; the phonetic query is not made, and the later forms are not
    looked at. *)
Theorem exact_headword_hit (conn : Connection) (table : list WordRow) (q : pystr)
    (i : nat) (record : WordRow) (k_ele : Element) (kanji_elements reading_elements : list Element) :
  words conn = Some table →
  q ≠ [] → strip q = q →
  list_find (fun r => r_word r = Some q) table = Some (i, record) →
  text k_ele = Some q →
  candidates conn (Some q) =
    map word_of_row (List.filter (fun r => sql_eq (r_word r) (Some q)) table)
  ∧ find_relevant_word conn (k_ele :: kanji_elements) reading_elements =
    (Return (Some (word_of_row record)), []).
Proof.
  intros Htable Hq Hstrip Hfind Htext.
  pose proof (filter_head_find table q) as Hhead. rewrite Hfind in Hhead. simpl in Hhead.
  destruct (List.filter (fun r => sql_eq (r_word r) (Some q)) table) as [|r rs] eqn:Hrows;
    [done|].
  injection Hhead as ->.
  assert (Hword : Word.word (word_of_row record) = q).
  { apply list_find_Some in Hfind as (_ & Hrecord & _).
    unfold word_of_row. simpl. rewrite Hrecord. by destruct q. }
  assert (Hwords : get_words conn (Some q) = mret (map word_of_row (record :: rs))).
  { unfold get_words. by rewrite Htable, Hrows. }
  split.
  - unfold candidates. by rewrite Hwords.
  - unfold find_relevant_word. cbn [find_in_elements]. rewrite Htext, Hwords.
    rewrite bind_ret_l. unfold filter_word. cbn [map first_exact].
    rewrite Hword. rewrite bool_decide_true by done. by rewrite bind_ret_l.
Qed.

(** ** The phonetic query and the tokens *)

Lemma like_any_prefix (pattern pre s : pystr) :
  like pattern s = true → like (37 :: pattern) (pre ++ s) = true.
Proof.
  intros Hs. induction pre as [|c pre IH].
  - cbn [app like]. change (37 =? 37) with true. cbn iota.
    destruct s; by rewrite Hs.
  - rewrite <- app_comm_cons.
    cbn [like] in IH |- *. change (37 =? 37) with true in IH |- *. cbn iota in IH |- *.
    by rewrite IH, orb_true_r.
Qed.

Lemma like_percent_any (s : pystr) : like [37] s = true.
Proof.
  rewrite <- (app_nil_r s). by apply like_any_prefix.
Qed.

Lemma like_itself_then_any (s post : pystr) : like (s ++ [37]) (s ++ post) = true.
Proof.
  induction s as [|c s IH]; [apply like_percent_any|].
  rewrite <- !app_comm_cons.
  destruct (decide (c = 37)) as [->|Hc].
  - apply (like_any_prefix _ [37]). exact IH.
  - cbn [like]. rewrite (proj2 (Z.eqb_neq _ _)) by done.
    by rewrite IH, Z.eqb_refl, orb_true_r.
Qed.

Lemma split_nonempty (sep : Z) (p : pystr) : split sep p ≠ [].
Proof.
  destruct p as [|c p]; [done|]. cbn [split].
  destruct (c =? sep); [done|]. by destruct (split sep p).
Qed.

(** [sep.join(p.split(sep)) == p] *)
Lemma join_split (sep : Z) (p : pystr) : join [sep] (split sep p) = p.
Proof.
  induction p as [|c p IH]; [done|].
  cbn [split]. destruct (c =? sep) eqn:Hc.
  - apply Z.eqb_eq in Hc as ->.
    pose proof (split_nonempty sep p) as Hne.
    destruct (split sep p) as [|piece pieces]; [done|].
    cbn [join] in IH |- *. by rewrite IH.
  - destruct (split sep p) as [|piece pieces] eqn:Hsplit.
    + by destruct (split_nonempty sep p).
    + destruct pieces as [|piece' pieces]; cbn [join] in IH |- *; by rewrite <- IH.
Qed.

Lemma join_infix (sep s : pystr) (pieces : list pystr) :
  s ∈ pieces → ∃ pre post, join sep pieces = pre ++ s ++ post.
Proof.
  induction pieces as [|piece pieces IH]; [by intros ?%elem_of_nil|].
  intros [->|Hs]%elem_of_cons.
  - destruct pieces as [|piece' pieces].
    + exists [], []. simpl. by rewrite app_nil_r.
    + exists [], (sep ++ join sep (piece' :: pieces)). done.
  - destruct (IH Hs) as (pre & post & Hjoin).
    destruct pieces as [|piece' pieces]; [by apply elem_of_nil in Hs|].
    exists (piece ++ sep ++ pre), post.
    change (join sep (piece :: piece' :: pieces))
      with (piece ++ sep ++ join sep (piece' :: pieces)).
    rewrite Hjoin. by rewrite <- !app_assoc.
Qed.

Lemma c_string_id (s : pystr) : 0 ∉ s → c_string s = s.
Proof.
  induction s as [|c s IH]; [done|].
  intros Hnul. apply not_elem_of_cons in Hnul as [Hc Hs].
  cbn [c_string]. rewrite (proj2 (Z.eqb_neq c 0)) by done. by rewrite IH.
Qed.

(** X18. Within the limits of SQLite's [LIKE], the phonetic query does not
    hide a record that the token test would accept. When no record has the
    query as its headword, the pattern built from the query has no more
    than 50000 bytes, and the phonetic field of a record has no U+0000 and
    has the query as a token, the record is among the candidates, and so
    some candidate is accepted. Outside these limits a record can be
    hidden: a field is read up to its first U+0000 only, and a longer
    pattern is refused for the whole query. *)
Theorem phonetic_query_keeps_token_rows (conn : Connection) (table : list WordRow)
    (q p : pystr) (record : WordRow) :
  words conn = Some table →
  List.filter (fun r => sql_eq (r_word r) (Some q)) table = [] →
  record ∈ table →
  r_phonetic record = Some p →
  0 ∉ p →
  utf8_length (py "%" ++ q ++ py "%") ≤ SQLITE_MAX_LIKE_PATTERN_LENGTH →
  token_match (Some q) (word_of_row record) →
  word_of_row record ∈ candidates conn (Some q)
  ∧ is_Some (accepted (Some q) (candidates conn (Some q)))
  ∧ ∀ ele kanji_elements reading_elements,
      text ele = Some q →
      ∃ word, value (find_relevant_word conn (ele :: kanji_elements) reading_elements) =
              Return (Some word).
Proof.
  intros Htable Hexact Hrecord Hp Hnul Hlen Htoken.
  assert (Hcandidate : word_of_row record ∈ candidates conn (Some q)).
  { unfold candidates, get_words. rewrite Htable, Hexact. cbn [py_format].
    rewrite bool_decide_false by lia. cbn [andb value fst mret Py_ret].
    apply list_elem_of_fmap. exists record. split; [done|].
    apply list_elem_of_In, filter_In. split; [by apply list_elem_of_In|].
    unfold token_match, tokens in Htoken.
    change (Word.phonetic (word_of_row record)) with (r_phonetic record) in Htoken.
    rewrite Hp in Htoken |- *.
    destruct p as [|c p]; [by apply elem_of_nil in Htoken|].
    cbn [sql_like].
    apply (join_infix [SPACE]) in Htoken as (pre & post & Hjoin).
    rewrite join_split in Hjoin.
    assert (Hq : 0 ∉ q).
    { intros Hin. apply Hnul. rewrite Hjoin.
      apply elem_of_app. right. apply elem_of_app. by left. }
    rewrite (c_string_id (c :: p)) by done.
    change (py "%" ++ q ++ py "%") with (37 :: q ++ [37]).
    rewrite (c_string_id (37 :: q ++ [37])).
    - rewrite Hjoin. apply like_any_prefix, like_itself_then_any.
    - intros [Hc|Hin]%elem_of_cons; [done|].
      apply elem_of_app in Hin as [Hin|Hin]; [done|].
      by apply list_elem_of_singleton in Hin. }
  assert (Haccepted : is_Some (accepted (Some q) (candidates conn (Some q)))).
  { unfold accepted.
    destruct (list_find (exact_match (Some q)) _) as [[i w]|]; [done|].
    destruct (list_find_elem_of (token_match (Some q)) _ _ Hcandidate Htoken) as [[i w] ->].
    done. }
  split_and!; [done..|].
  intros ele kanji_elements reading_elements Htext.
  destruct Haccepted as [word Hword]. exists word.
  rewrite find_relevant_word_value. cbn [map app]. rewrite Htext.
  by rewrite first_accepted_cons, Hword.
Qed.

(** A query whose pattern is longer than SQLite allows is refused at the
    first record: the error is printed and there is no candidate, whatever
    the phonetic fields hold. *)
Lemma long_pattern_refused (conn : Connection) (table : list WordRow) (q : pystr) :
  words conn = Some table →
  table ≠ [] →
  List.filter (fun r => sql_eq (r_word r) (Some q)) table = [] →
  SQLITE_MAX_LIKE_PATTERN_LENGTH < utf8_length (py "%" ++ q ++ py "%") →
  get_words conn (Some q) = (Return [], [DatabaseError]).
Proof.
  intros Htable Hrows Hexact Hlong. unfold get_words. rewrite Htable, Hexact.
  cbn [py_format]. by rewrite !bool_decide_true.
Qed.

(** X19. The headword of a word built from a record is trimmed, so a
    form whose text has whitespace at either end is never matched by
    headword, even by a record with exactly that headword: it can only be
    matched as a token of a phonetic field. *)
Theorem untrimmed_form_never_exact (conn : Connection) (q : pystr) :
  strip q ≠ q →
  (∀ record, strip (Word.word (word_of_row record)) = Word.word (word_of_row record))
  ∧ list_find (exact_match (Some q)) (candidates conn (Some q)) = None
  ∧ accepted (Some q) (candidates conn (Some q)) =
    snd <$> list_find (token_match (Some q)) (candidates conn (Some q)).
Proof.
  intros Hq.
  assert (Htrimmed : ∀ record,
    strip (Word.word (word_of_row record)) = Word.word (word_of_row record)).
  { intros record. unfold word_of_row. simpl.
    destruct (r_word record) as [[|c w]|]; [done| |done]. apply strip_idem. }
  assert (Hnone : list_find (exact_match (Some q)) (candidates conn (Some q)) = None).
  { apply list_find_None, Forall_forall. intros w Hw Hexact.
    apply candidates_from_table in Hw as (table & record & _ & _ & ->).
    unfold exact_match in Hexact. injection Hexact as ->.
    apply Hq, Htrimmed. }
  split_and!; [done..|]. unfold accepted. by rewrite Hnone.
Qed.

(** ** The orchestrator on any document *)

Section RunAnyDocument.
Variable fromstring : pystr → option Element.
Variable tostring : Element → pystr.

Lemma run_unfold (conn : Connection) (root : Element) (completion : list nat) :
  completion ≡ₚ seq 0 (length (ET.findall_desc root (py "entry"))) →
  update_jmdict_with_vietnamese_parallel fromstring tostring conn root completion =
  Some (modified_entry_strs ←
          collect_results
            (map (fun entry => value (process_entry fromstring tostring conn (tostring entry)))
                 (ET.findall_desc root (py "entry")));
        update_tree fromstring (ET.findall_desc root (py "entry")) 0%nat
                    modified_entry_strs root).
Proof.
  intros Hperm. unfold update_jmdict_with_vietnamese_parallel.
  rewrite pool_imap_any_order by (by rewrite length_map).
  simpl. by rewrite <- list_fmap_compose.
Qed.

Lemma update_tree_overflow (entries : list Element) (strs : list pystr)
    (root : Element) (i : nat) :
  (i ≤ length (children root))%nat →
  (length (children root) < i + length strs)%nat →
  (i + length strs ≤ length entries)%nat →
  value (update_tree fromstring entries i strs root) = Raise IndexError.
Proof.
  revert root i. induction strs as [|s strs IH]; intros root i Hi Hover Hentries.
  - simpl in Hover. lia.
  - simpl in Hover, Hentries.
    destruct (lookup_lt_is_Some_2 entries i) as [original Horiginal]; [lia|].
    cbn [update_tree]. rewrite Horiginal. rewrite value_bind.
    assert (Hset : ∀ child,
      value (ET.setitem root i child) =
      if decide (i < length (children root))%nat
      then Return (ET.with_children root (<[i := child]> (children root)))
      else Raise IndexError).
    { intros child. unfold ET.setitem. by case_bool_decide; case_decide. }
    assert (Hstep : ∀ child,
      match value (ET.setitem root i child) with
      | Return root' => value (update_tree fromstring entries (S i) strs root')
      | Raise e => Raise e
      end = Raise IndexError).
    { intros child. rewrite Hset. case_decide; [|done].
      apply IH; simpl; rewrite ?length_insert; lia. }
    destruct (fromstring s) as [entry|]; [apply Hstep|].
    rewrite value_bind. simpl. apply Hstep.
Qed.

(** X12. The run writes each result at the child position of the root
    that equals the rank of its entry among [root.findall('.//entry')],
    whatever child is there. For any document with at least as many
    children as entries, and workers that all return, the run gives an
    output in which the child at a position below the number of entries is
    the parsed result of the entry of that rank (or that entry when the
    result does not parse) and every later child is left as it was. *)
Theorem results_written_by_rank (conn : Connection) (root : Element)
    (completion : list nat) (strs : list pystr) :
  completion ≡ₚ seq 0 (length (ET.findall_desc root (py "entry"))) →
  map (fun entry => value (process_entry fromstring tostring conn (tostring entry)))
      (ET.findall_desc root (py "entry")) = map Return strs →
  (length (ET.findall_desc root (py "entry")) ≤ length (children root))%nat →
  ∃ out,
    update_jmdict_with_vietnamese_parallel fromstring tostring conn root completion =
      Some (Return out, parse_failures fromstring 0 strs)
    ∧ length (children out) = length (children root)
    ∧ ∀ j, children out !! j =
           if decide (j < length (ET.findall_desc root (py "entry")))%nat
           then s ← strs !! j;
                original ← ET.findall_desc root (py "entry") !! j;
                Some (default original (fromstring s))
           else children root !! j.
Proof.
  intros Hperm Hstrs Hfits.
  assert (Hlen : length strs = length (ET.findall_desc root (py "entry"))).
  { apply (f_equal length) in Hstrs. rewrite !length_map in Hstrs. done. }
  destruct (update_tree_spec fromstring (ET.findall_desc root (py "entry")) strs root 0)
    as (out & Hout & _ & _ & _ & _ & Hlength & Hchildren); [lia..|].
  exists out. split_and!; try done.
  - rewrite run_unfold by done. rewrite Hstrs.
    rewrite (collect_results_returns _ strs) by done.
    f_equal. rewrite bind_ret_l. exact Hout.
  - intros j. rewrite Hchildren, Nat.sub_0_r.
    destruct (decide (j < length (ET.findall_desc root (py "entry")))%nat).
    + by rewrite decide_True by lia.
    + by rewrite decide_False by lia.
Qed.

(** X13. A document with more entries, counted at any depth, than
    children of the root (an entry inside another, say) makes the run
    raise [IndexError] once every worker has returned: nothing is written. *)
Theorem more_entries_than_children_raises (conn : Connection) (root : Element)
    (completion : list nat) (strs : list pystr) :
  completion ≡ₚ seq 0 (length (ET.findall_desc root (py "entry"))) →
  map (fun entry => value (process_entry fromstring tostring conn (tostring entry)))
      (ET.findall_desc root (py "entry")) = map Return strs →
  (length (children root) < length (ET.findall_desc root (py "entry")))%nat →
  ∃ run,
    update_jmdict_with_vietnamese_parallel fromstring tostring conn root completion = Some run
    ∧ value run = Raise IndexError
    ∧ update_file fromstring tostring conn (Some root) completion =
      Some (None, Aborted (Uncaught IndexError)).
Proof.
  intros Hperm Hstrs Hmore.
  assert (Hlen : length strs = length (ET.findall_desc root (py "entry"))).
  { apply (f_equal length) in Hstrs. rewrite !length_map in Hstrs. done. }
  assert (Hvalue : value (modified_entry_strs ←
            collect_results
              (map (fun entry => value (process_entry fromstring tostring conn (tostring entry)))
                   (ET.findall_desc root (py "entry")));
            update_tree fromstring (ET.findall_desc root (py "entry")) 0%nat
                        modified_entry_strs root) = Raise IndexError).
  { rewrite Hstrs, (collect_results_returns _ strs) by done.
    rewrite bind_ret_l. apply update_tree_overflow; lia. }
  eexists. split; [by apply run_unfold|]. split; [exact Hvalue|].
  unfold update_file. rewrite run_unfold by done. simpl. by rewrite Hvalue.
Qed.

Lemma collect_results_first_raise {B} (before : list B) (e : exn) (after : list (outcome B)) :
  value (collect_results (map Return before ++ Raise e :: after)) = Raise e.
Proof.
  induction before as [|b before IH]; [done|].
  simpl. by rewrite value_bind, IH.
Qed.

(** X17. An exception in a worker ends the run, whatever the order in
    which the workers finish: when the workers of the entries before some
    entry return and the worker of that entry raises, the run raises that
    exception, writes nothing, and the results of the other entries are
    lost with it. *)
Theorem first_worker_exception_ends_run (conn : Connection) (root : Element)
    (schedule : list nat) (before : list Element) (failing : Element)
    (after : list Element) (strs : list pystr) (e : exn) :
  schedule ≡ₚ seq 0 (length (ET.findall_desc root (py "entry"))) →
  ET.findall_desc root (py "entry") = before ++ failing :: after →
  map (fun entry => value (process_entry fromstring tostring conn (tostring entry))) before =
    map Return strs →
  value (process_entry fromstring tostring conn (tostring failing)) = Raise e →
  ∃ run,
    update_jmdict_with_vietnamese_parallel fromstring tostring conn root schedule = Some run
    ∧ value run = Raise e
    ∧ update_file fromstring tostring conn (Some root) schedule =
      Some (None, Aborted (Uncaught e)).
Proof.
  intros Hperm Hentries Hbefore Hfailing.
  assert (Hvalue : value (modified_entry_strs ←
            collect_results
              (map (fun entry => value (process_entry fromstring tostring conn (tostring entry)))
                   (ET.findall_desc root (py "entry")));
            update_tree fromstring (ET.findall_desc root (py "entry")) 0%nat
                        modified_entry_strs root) = Raise e).
  { rewrite value_bind, Hentries, map_app. cbn [map].
    by rewrite Hbefore, Hfailing, collect_results_first_raise. }
  eexists. split; [by apply run_unfold|]. split; [exact Hvalue|].
  unfold update_file. rewrite run_unfold by done. simpl. by rewrite Hvalue.
Qed.

(** ** The whole run on a file and the main loop *)

(** X14. A file without entries is written out as it is, and the call
    then raises [ZeroDivisionError] in its report (the average time per
    entry). In the main loop the output of such a file is there, the
    script ends at it, and the files after it are not processed. *)
Theorem empty_file_written_then_raises (conn : Connection) (root : Element)
    (schedule : list nat) (name : pystr) (rest : list input_file)
    (output_folder : gmap pystr Element) :
  ET.findall_desc root (py "entry") = [] →
  output_folder !! name = None →
  update_file fromstring tostring conn (Some root) schedule =
    Some (Some root, Aborted ZeroDivisionError)
  ∧ main fromstring tostring conn (mkInput name (Some root) schedule :: rest) output_folder =
    Some (<[name := root]> output_folder, Aborted ZeroDivisionError).
Proof.
  intros Hempty Hnew.
  assert (Hfile : update_file fromstring tostring conn (Some root) schedule =
                  Some (Some root, Aborted ZeroDivisionError)).
  { unfold update_file, update_jmdict_with_vietnamese_parallel. by rewrite Hempty. }
  split; [exact Hfile|].
  cbn [main file_name parsed completion]. rewrite Hnew, Hfile. reflexivity.
Qed.

Lemma update_file_written (conn : Connection) (parsed : option Element)
    (schedule : list nat) (written : option Element) :
  update_file fromstring tostring conn parsed schedule = Some (written, Finished ()) →
  is_Some written.
Proof.
  unfold update_file. destruct parsed as [root|]; [|done].
  destruct (update_jmdict_with_vietnamese_parallel _ _ _ _ _) as [run|]; [|done].
  simpl. destruct (value run); [|done]. case_bool_decide; [done|].
  intros [= <-]. eauto.
Qed.

Lemma main_keeps_existing_outputs_aux (conn : Connection) (xml_files : list input_file)
    (output_folder output_folder' : gmap pystr Element) (ended : script ()) :
  main fromstring tostring conn xml_files output_folder = Some (output_folder', ended) →
  output_folder ⊆ output_folder'.
Proof.
  revert output_folder. induction xml_files as [|input rest IH]; intros output_folder.
  - simpl. by intros [= <- <-].
  - cbn [main]. destruct (output_folder !! file_name input) as [existing|] eqn:Hexists.
    + apply IH.
    + destruct (update_file _ _ _ _ _) as [[written how]|]; [|done]. simpl.
      assert (Hgrows : output_folder ⊆
                match written with
                | Some out => <[file_name input := out]> output_folder
                | None => output_folder
                end).
      { destruct written; [by apply insert_subseteq|done]. }
      destruct how as [[]|e].
      * intros Hrest. etrans; [exact Hgrows|]. by apply IH in Hrest.
      * by intros [= <- <-].
Qed.

(** X15. The main loop never touches an output that exists: whatever the
    script does and however it ends, every file that was in the output
    folder before is there afterwards with the same content. *)
Theorem main_keeps_existing_outputs (conn : Connection) (xml_files : list input_file)
    (output_folder output_folder' : gmap pystr Element) (ended : script ()) :
  main fromstring tostring conn xml_files output_folder = Some (output_folder', ended) →
  ∀ name tree, output_folder !! name = Some tree → output_folder' !! name = Some tree.
Proof.
  intros Hmain name tree Htree.
  eapply lookup_weaken; [exact Htree|]. by eapply main_keeps_existing_outputs_aux.
Qed.

(** X16. When the main loop finishes without an exception, every file of
    the input folder has an output, and running the script again over the
    same input folder skips every file and changes nothing. *)
Theorem main_finished_then_nothing_to_do (conn : Connection) (xml_files : list input_file)
    (output_folder output_folder' : gmap pystr Element) :
  main fromstring tostring conn xml_files output_folder = Some (output_folder', Finished ()) →
  Forall (fun input => is_Some (output_folder' !! file_name input)) xml_files
  ∧ main fromstring tostring conn xml_files output_folder' = Some (output_folder', Finished ()).
Proof.
  intros Hmain.
  assert (Hall : Forall (fun input => is_Some (output_folder' !! file_name input)) xml_files).
  { revert output_folder Hmain.
    induction xml_files as [|input rest IH]; intros output_folder Hmain; [constructor|].
    cbn [main] in Hmain.
    destruct (output_folder !! file_name input) as [existing|] eqn:Hexists.
    - constructor; [|by eapply IH].
      apply main_keeps_existing_outputs_aux in Hmain.
      eapply lookup_weaken_is_Some; [|exact Hmain]. by rewrite Hexists.
    - destruct (update_file _ _ _ _ _) as [[written how]|] eqn:Hfile; [|done].
      simpl in Hmain. destruct how as [[]|e]; [|done].
      apply update_file_written in Hfile as [out ->].
      constructor; [|by eapply IH].
      apply main_keeps_existing_outputs_aux in Hmain.
      eapply lookup_weaken_is_Some; [|exact Hmain]. by rewrite lookup_insert_eq. }
  split; [exact Hall|].
  clear Hmain. induction Hall as [|input rest [out Hout] _ IH]; [done|].
  cbn [main]. by rewrite Hout.
Qed.

End RunAnyDocument.

(** * The further properties on the sample data *)

Import Sample2.

Example split_of_corpus : split_jmdict corpus 2 = Finished corpus_split.
Proof. vm_compute. reflexivity. Qed.

Lemma split_keeps_entries_witness :
  0 < 2
  ∧ ∃ files,
      split_jmdict corpus 2 = Finished files
      ∧ concat (map (fun file : pystr * Element => children file.2) files) =
        ET.findall corpus (py "entry").
Proof. split; [lia|]. apply (split_keeps_entries corpus 2). lia. Defined.

Lemma split_chunk_sizes_witness :
  0 < 2
  ∧ ∃ files,
      split_jmdict corpus 2 = Finished files
      ∧ Z.of_nat (length files) =
        (Z.of_nat (length (ET.findall corpus (py "entry"))) + 2 - 1) `div` 2
      ∧ (ET.findall corpus (py "entry") = [] → files = [])
      ∧ ∀ j file, files !! j = Some file →
          1 ≤ Z.of_nat (length (children file.2)) ≤ 2
          ∧ ((S j < length files)%nat → Z.of_nat (length (children file.2)) = 2).
Proof. split; [lia|]. apply (split_chunk_sizes corpus 2). lia. Defined.

Lemma split_file_names_witness :
  split_jmdict corpus 2 = Finished corpus_split
  ∧ (∀ j file, corpus_split !! j = Some file →
       file.1 = py "jmdict_part_" ++ py_str (Z.of_nat j + 1) ++ py ".xml"
       ∧ tag file.2 = tag corpus ∧ attrib file.2 = attrib corpus
       ∧ text file.2 = None ∧ tail file.2 = None)
  ∧ NoDup (map fst corpus_split).
Proof.
  assert (Hsplit : split_jmdict corpus 2 = Finished corpus_split).
  { vm_compute. reflexivity. }
  split; [exact Hsplit|].
  exact (split_file_names corpus 2 corpus_split Hsplit).
Defined.

Lemma split_nonpositive_loses_entries_witness :
  -1 ≤ 0
  ∧ match split_jmdict corpus (-1) with
    | Aborted e => -1 = 0 ∧ e = ZeroDivisionError
    | Finished files =>
        -1 < 0
        ∧ Forall (fun file : pystr * Element => children file.2 = []) files
        ∧ ((2 ≤ length (ET.findall corpus (py "entry")))%nat → files = [])
    end.
Proof. split; [lia|]. apply (split_nonpositive_loses_entries corpus (-1)). lia. Defined.

Example split_by_minus_one : split_jmdict corpus (-1) = Finished [].
Proof. vm_compute. reflexivity. Qed.

Example split_one_entry_by_minus_one :
  split_jmdict (node "JMdict" [entry_hon]) (-1) =
  Finished [(py "jmdict_part_1.xml", node "JMdict" [])].
Proof. vm_compute. reflexivity. Qed.

Lemma split_then_merge_witness :
  0 < 2
  ∧ ∃ files,
      split_jmdict corpus 2 = Finished files
      ∧ (∀ file, file ∈ files →
           ∃ tree, Return file.2 = Return tree ∧ children tree = children file.2)
      ∧ merge_xml_files (map (fun file : pystr * Element => (file.1, Return file.2)) files) =
        (Return (mkElement (py "JMdict") [] None None (ET.findall corpus (py "entry"))), []).
Proof.
  split; [lia|].
  destruct (split_then_merge corpus 2 (fun file => Return file.2)) as (files & Hfiles & Hmerge);
    [lia|].
  assert (Hread : ∀ file : pystr * Element, file ∈ files →
            ∃ tree, Return file.2 = Return tree ∧ children tree = children file.2).
  { intros file _. by exists file.2. }
  exists files. split; [exact Hfiles|]. split; [exact Hread|]. exact (Hmerge Hread).
Defined.

Lemma store_down_entry_unchanged_witness :
  words conn_down = None ∧ kanji conn_down = None
  ∧ map text (ET.findall2 entry_nihongo (py "k_ele") (py "keb")) = map Some [nihongo]
  ∧ process_element conn_down entry_nihongo =
    (Return entry_nihongo,
     replicate (length (ideographs [nihongo])
                + length (ET.findall2 entry_nihongo (py "k_ele") (py "keb"))
                + length (ET.findall2 entry_nihongo (py "r_ele") (py "reb"))) DatabaseError).
Proof.
  split; [reflexivity|]. split; [reflexivity|]. split; [reflexivity|].
  apply (store_down_entry_unchanged conn_down entry_nihongo [nihongo]); reflexivity.
Defined.

Example store_down_lines :
  printed (process_element conn_down entry_nihongo) = replicate 5 DatabaseError.
Proof. vm_compute. reflexivity. Qed.

Lemma process_element_returns_witness :
  ((∃ result, value (process_element conn entry_empty_keb) = Return result)
   ↔ Forall (fun keb => text keb ≠ None) (ET.findall2 entry_empty_keb (py "k_ele") (py "keb")))
  ∧ ∀ result, value (process_element conn entry_empty_keb) = Return result →
      ∃ blocks before after,
        children entry_empty_keb = before ++ after
        ∧ Forall (fun c => tag c ≠ py "sense") before
        ∧ match after with [] => True | first :: _ => tag first = py "sense" end
        ∧ (length blocks ≤ 2)%nat
        ∧ Forall (fun block => tag block = py "sense") blocks
        ∧ result = mkElement (tag entry_empty_keb) (attrib entry_empty_keb)
                             (text entry_empty_keb) (tail entry_empty_keb)
                             (before ++ blocks ++ after).
Proof. apply (process_element_returns conn entry_empty_keb). Defined.

Lemma reprocessing_repeats_blocks_witness :
  value (process_element conn entry_nichi) = Return entry_nichi_vi
  ∧ ∃ blocks before after,
      children entry_nichi = before ++ after
      ∧ Forall (fun c => tag c ≠ py "sense") before
      ∧ entry_nichi_vi = mkElement (tag entry_nichi) (attrib entry_nichi) (text entry_nichi)
                                   (tail entry_nichi) (before ++ blocks ++ after)
      ∧ value (process_element conn entry_nichi_vi) =
        Return (mkElement (tag entry_nichi) (attrib entry_nichi) (text entry_nichi)
                          (tail entry_nichi) (before ++ blocks ++ blocks ++ after)).
Proof.
  assert (Hfirst : value (process_element conn entry_nichi) = Return entry_nichi_vi).
  { vm_compute. reflexivity. }
  split; [exact Hfirst|].
  exact (reprocessing_repeats_blocks conn entry_nichi entry_nichi_vi Hfirst).
Defined.

Example second_pass :
  value (process_element conn entry_nichi_vi) =
  Return (node "entry" [node "k_ele" [keb [NICHI]];
                        character_sense nhat [[NICHI] ++ py " : day-note"];
                        character_sense nhat [[NICHI] ++ py " : day-note"];
                        english]).
Proof. vm_compute. reflexivity. Qed.

Lemma exact_headword_hit_witness :
  words conn = Some [word_row]
  ∧ nihongo ≠ [] ∧ strip nihongo = nihongo
  ∧ list_find (fun r => r_word r = Some nihongo) [word_row] = Some (0%nat, word_row)
  ∧ text (keb nihongo) = Some nihongo
  ∧ candidates conn (Some nihongo) =
      map word_of_row (List.filter (fun r => sql_eq (r_word r) (Some nihongo)) [word_row])
  ∧ find_relevant_word conn (keb nihongo :: [keb [NICHI]]) [reb reading] =
    (Return (Some (word_of_row word_row)), []).
Proof.
  assert (Hne : nihongo ≠ []) by discriminate.
  assert (Hfind : list_find (fun r => r_word r = Some nihongo) [word_row] =
                  Some (0%nat, word_row)).
  { vm_compute. reflexivity. }
  split; [reflexivity|]. split; [exact Hne|]. split; [reflexivity|].
  split; [exact Hfind|]. split; [reflexivity|].
  exact (exact_headword_hit conn [word_row] nihongo 0 word_row (keb nihongo)
           [keb [NICHI]] [reb reading] eq_refl Hne eq_refl Hfind eq_refl).
Defined.

Lemma phonetic_query_keeps_token_rows_witness :
  words conn = Some [word_row]
  ∧ List.filter (fun r => sql_eq (r_word r) (Some reading)) [word_row] = []
  ∧ word_row ∈ [word_row]
  ∧ r_phonetic word_row = Some (reading ++ py " nihongo")
  ∧ 0 ∉ reading ++ py " nihongo"
  ∧ utf8_length (py "%" ++ reading ++ py "%") ≤ SQLITE_MAX_LIKE_PATTERN_LENGTH
  ∧ token_match (Some reading) (word_of_row word_row)
  ∧ word_of_row word_row ∈ candidates conn (Some reading)
  ∧ is_Some (accepted (Some reading) (candidates conn (Some reading)))
  ∧ ∀ ele kanji_elements reading_elements,
      text ele = Some reading →
      ∃ word, value (find_relevant_word conn (ele :: kanji_elements) reading_elements) =
              Return (Some word).
Proof.
  assert (Hexact : List.filter (fun r => sql_eq (r_word r) (Some reading)) [word_row] = []).
  { vm_compute. reflexivity. }
  assert (Hrecord : word_row ∈ [word_row]) by constructor.
  assert (Hnul : 0 ∉ reading ++ py " nihongo").
  { apply (bool_decide_unpack _). vm_compute. exact I. }
  assert (Hlen : utf8_length (py "%" ++ reading ++ py "%") ≤ SQLITE_MAX_LIKE_PATTERN_LENGTH).
  { vm_compute. discriminate. }
  assert (Htoken : token_match (Some reading) (word_of_row word_row)).
  { vm_compute. constructor. }
  split; [reflexivity|]. split; [exact Hexact|]. split; [exact Hrecord|].
  split; [reflexivity|]. split; [exact Hnul|]. split; [exact Hlen|].
  split; [exact Htoken|].
  exact (phonetic_query_keeps_token_rows conn [word_row] reading (reading ++ py " nihongo")
           word_row eq_refl Hexact Hrecord eq_refl Hnul Hlen Htoken).
Defined.

(** A record whose phonetic field begins with U+0000 has the query as a
    token and is not returned: the field is read as an empty text. *)
Example field_after_nul_not_read :
  token_match (Some (py "b")) (word_of_row word_row_nul)
  ∧ get_words conn_nul (Some (py "b")) = (Return [], []).
Proof.
  split.
  - vm_compute. right. left.
  - vm_compute. reflexivity.
Qed.

Lemma untrimmed_form_never_exact_witness :
  strip (SPACE :: nihongo) ≠ SPACE :: nihongo
  ∧ (∀ record, strip (Word.word (word_of_row record)) = Word.word (word_of_row record))
  ∧ list_find (exact_match (Some (SPACE :: nihongo))) (candidates conn (Some (SPACE :: nihongo)))
    = None
  ∧ accepted (Some (SPACE :: nihongo)) (candidates conn (Some (SPACE :: nihongo))) =
    snd <$> list_find (token_match (Some (SPACE :: nihongo)))
                      (candidates conn (Some (SPACE :: nihongo))).
Proof.
  assert (Hq : strip (SPACE :: nihongo) ≠ SPACE :: nihongo).
  { vm_compute. discriminate. }
  split; [exact Hq|].
  exact (untrimmed_form_never_exact conn (SPACE :: nihongo) Hq).
Defined.

(** The document with an [info] child in front of its only entry. *)
Lemma results_written_by_rank_witness :
  [0%nat] ≡ₚ seq 0 (length (ET.findall_desc document_with_info (py "entry")))
  ∧ map (fun entry => value (process_entry fromstring xml_text conn (xml_text entry)))
        (ET.findall_desc document_with_info (py "entry")) =
    map Return [xml_text entry_nichi_vi]
  ∧ (length (ET.findall_desc document_with_info (py "entry"))
     ≤ length (children document_with_info))%nat
  ∧ ∃ out,
      update_jmdict_with_vietnamese_parallel fromstring xml_text conn document_with_info [0%nat] =
        Some (Return out, parse_failures fromstring 0 [xml_text entry_nichi_vi])
      ∧ length (children out) = length (children document_with_info)
      ∧ ∀ j, children out !! j =
             if decide (j < length (ET.findall_desc document_with_info (py "entry")))%nat
             then s ← [xml_text entry_nichi_vi] !! j;
                  original ← ET.findall_desc document_with_info (py "entry") !! j;
                  Some (default original (fromstring s))
             else children document_with_info !! j.
Proof.
  assert (Hperm : [0%nat] ≡ₚ seq 0 (length (ET.findall_desc document_with_info (py "entry")))).
  { vm_compute. reflexivity. }
  assert (Hstrs : map (fun entry => value (process_entry fromstring xml_text conn (xml_text entry)))
                      (ET.findall_desc document_with_info (py "entry")) =
                  map Return [xml_text entry_nichi_vi]).
  { vm_compute. reflexivity. }
  assert (Hfits : (length (ET.findall_desc document_with_info (py "entry"))
                   ≤ length (children document_with_info))%nat).
  { vm_compute. lia. }
  split; [exact Hperm|]. split; [exact Hstrs|]. split; [exact Hfits|].
  exact (results_written_by_rank fromstring xml_text conn document_with_info [0%nat]
           [xml_text entry_nichi_vi] Hperm Hstrs Hfits).
Defined.

(** The document with one entry inside another. *)
Lemma more_entries_than_children_raises_witness :
  [1; 0]%nat ≡ₚ seq 0 (length (ET.findall_desc document_nested (py "entry")))
  ∧ map (fun entry => value (process_entry fromstring_nested xml_text conn (xml_text entry)))
        (ET.findall_desc document_nested (py "entry")) =
    map Return [xml_text entry_outer; xml_text entry_hon]
  ∧ (length (children document_nested)
     < length (ET.findall_desc document_nested (py "entry")))%nat
  ∧ ∃ run,
      update_jmdict_with_vietnamese_parallel fromstring_nested xml_text conn
        document_nested [1; 0]%nat = Some run
      ∧ value run = Raise IndexError
      ∧ update_file fromstring_nested xml_text conn (Some document_nested) [1; 0]%nat =
        Some (None, Aborted (Uncaught IndexError)).
Proof.
  assert (Hperm : [1; 0]%nat ≡ₚ seq 0 (length (ET.findall_desc document_nested (py "entry")))).
  { vm_compute. solve_Permutation. }
  assert (Hstrs : map (fun entry =>
                         value (process_entry fromstring_nested xml_text conn (xml_text entry)))
                      (ET.findall_desc document_nested (py "entry")) =
                  map Return [xml_text entry_outer; xml_text entry_hon]).
  { vm_compute. reflexivity. }
  assert (Hmore : (length (children document_nested)
                   < length (ET.findall_desc document_nested (py "entry")))%nat).
  { vm_compute. lia. }
  split; [exact Hperm|]. split; [exact Hstrs|]. split; [exact Hmore|].
  exact (more_entries_than_children_raises fromstring_nested xml_text conn document_nested
           [1; 0]%nat [xml_text entry_outer; xml_text entry_hon] Hperm Hstrs Hmore).
Defined.

(** The corpus whose second entry has an empty headword form. *)
Lemma first_worker_exception_ends_run_witness :
  [1; 0]%nat ≡ₚ seq 0 (length (ET.findall_desc corpus_then_empty_keb (py "entry")))
  ∧ ET.findall_desc corpus_then_empty_keb (py "entry") = [entry_nichi] ++ entry_empty_keb :: []
  ∧ map (fun entry => value (process_entry fromstring xml_text conn (xml_text entry)))
        [entry_nichi] = map Return [xml_text entry_nichi_vi]
  ∧ value (process_entry fromstring xml_text conn (xml_text entry_empty_keb)) = Raise TypeError
  ∧ ∃ run,
      update_jmdict_with_vietnamese_parallel fromstring xml_text conn
        corpus_then_empty_keb [1; 0]%nat = Some run
      ∧ value run = Raise TypeError
      ∧ update_file fromstring xml_text conn (Some corpus_then_empty_keb) [1; 0]%nat =
        Some (None, Aborted (Uncaught TypeError)).
Proof.
  assert (Hperm : [1; 0]%nat ≡ₚ
                  seq 0 (length (ET.findall_desc corpus_then_empty_keb (py "entry")))).
  { vm_compute. solve_Permutation. }
  assert (Hentries : ET.findall_desc corpus_then_empty_keb (py "entry") =
                     [entry_nichi] ++ entry_empty_keb :: []).
  { vm_compute. reflexivity. }
  assert (Hbefore : map (fun entry =>
                           value (process_entry fromstring xml_text conn (xml_text entry)))
                        [entry_nichi] = map Return [xml_text entry_nichi_vi]).
  { vm_compute. reflexivity. }
  assert (Hfailing : value (process_entry fromstring xml_text conn (xml_text entry_empty_keb))
                     = Raise TypeError).
  { vm_compute. reflexivity. }
  split; [exact Hperm|]. split; [exact Hentries|]. split; [exact Hbefore|].
  split; [exact Hfailing|].
  exact (first_worker_exception_ends_run fromstring xml_text conn corpus_then_empty_keb
           [1; 0]%nat [entry_nichi] entry_empty_keb [] [xml_text entry_nichi_vi] TypeError
           Hperm Hentries Hbefore Hfailing).
Defined.

(** A file without entries, in an empty output folder. *)
Lemma empty_file_written_then_raises_witness :
  ET.findall_desc (node "JMdict" []) (py "entry") = []
  ∧ (∅ : gmap pystr Element) !! py "jmdict_part_2.xml" = None
  ∧ update_file fromstring xml_text conn (Some (node "JMdict" [])) [] =
      Some (Some (node "JMdict" []), Aborted ZeroDivisionError)
  ∧ main fromstring xml_text conn
      (mkInput (py "jmdict_part_2.xml") (Some (node "JMdict" [])) []
       :: [mkInput (py "jmdict_part_3.xml") (Some (node "JMdict" [entry_hon])) [0%nat]]) ∅ =
    Some (<[py "jmdict_part_2.xml" := node "JMdict" []]> ∅, Aborted ZeroDivisionError).
Proof.
  split; [reflexivity|]. split; [reflexivity|].
  exact (empty_file_written_then_raises fromstring xml_text conn (node "JMdict" []) []
           (py "jmdict_part_2.xml")
           [mkInput (py "jmdict_part_3.xml") (Some (node "JMdict" [entry_hon])) [0%nat]]
           ∅ eq_refl eq_refl).
Defined.

(** The input folder of three files on an output folder that holds a
    stale output for the first: the first file is skipped, the second is
    written and ends the script, the third is not reached. *)
Example main_on_stale_folder :
  main fromstring xml_text conn input_folder output_folder_stale =
  Some (<[py "jmdict_part_2.xml" := node "JMdict" []]> output_folder_stale,
        Aborted ZeroDivisionError).
Proof. vm_compute. reflexivity. Qed.

Lemma main_keeps_existing_outputs_witness :
  main fromstring xml_text conn input_folder output_folder_stale =
    Some (<[py "jmdict_part_2.xml" := node "JMdict" []]> output_folder_stale,
          Aborted ZeroDivisionError)
  ∧ ∀ name tree,
      output_folder_stale !! name = Some tree →
      (<[py "jmdict_part_2.xml" := node "JMdict" []]> output_folder_stale) !! name = Some tree.
Proof.
  assert (Hmain : main fromstring xml_text conn input_folder output_folder_stale =
            Some (<[py "jmdict_part_2.xml" := node "JMdict" []]> output_folder_stale,
                  Aborted ZeroDivisionError)).
  { vm_compute. reflexivity. }
  split; [exact Hmain|].
  exact (main_keeps_existing_outputs fromstring xml_text conn input_folder
           output_folder_stale _ _ Hmain).
Defined.

(** The two files with entries, from an empty output folder. *)
Lemma main_finished_then_nothing_to_do_witness :
  main fromstring xml_text conn input_folder_entries ∅ = Some (output_folder_done, Finished ())
  ∧ Forall (fun input => is_Some (output_folder_done !! file_name input)) input_folder_entries
  ∧ main fromstring xml_text conn input_folder_entries output_folder_done =
    Some (output_folder_done, Finished ()).
Proof.
  assert (Hmain : main fromstring xml_text conn input_folder_entries ∅ =
                  Some (output_folder_done, Finished ())).
  { vm_compute. reflexivity. }
  split; [exact Hmain|].
  exact (main_finished_then_nothing_to_do fromstring xml_text conn input_folder_entries
           ∅ output_folder_done Hmain).
Defined.
